(** * TCG 2584: the Fibonacci-merge board and the TD(0) n-tuple player

    A shallow embedding of [board.h] (grid, dihedral transforms, slides,
    the monotonic heuristic, the Fibonacci table and its inverse, the
    counts, placement, the comparison operators) and of [agent.h] (the
    [player] class: index extraction, value estimation, action
    selection, backward TD(0) update; the properties of an agent; the
    random environment; the dummy player), followed by the properties
    checked against them.

    Conventions.
    - [board::cell] is [uint32_t]: a [Z] in [0, 2^32).  The casts the
      source performs ([int tile = row[c]], [(int)after(a)], storing an
      [int] back into a cell) are written out as [to_int] and [to_cell].
    - [float] is IEEE-754 binary32, round to nearest even, modelled with
      the [SpecFloat] operations at precision 24 and exponent bound 128.
    - [std::array] rows and grids are records of four fields; in-place
      writes become functional updates threaded through the loops in
      the order the source performs them. *)

From Stdlib Require Import Strings.String Strings.Ascii.
From Stdlib Require Import ZArith List Lia Bool Permutation.
From Stdlib Require Import Floats.SpecFloat.
Import ListNotations.
Open Scope Z_scope.

(** ** binary32 arithmetic *)

Module F32.

Definition prec : Z := 24.
Definition emax : Z := 128.

Definition float : Type := spec_float.

Definition zero : float := S754_zero false.
Definition add : float -> float -> float := SFadd prec emax.
Definition sub : float -> float -> float := SFsub prec emax.
Definition mul : float -> float -> float := SFmul prec emax.

(** conversion of an [int] operand in mixed [int]/[float] arithmetic *)
Definition of_int (z : Z) : float := binary_normalize prec emax z 0 false.

(** [x >= y] and [x == y] on floats: false as soon as one side is NaN *)
Definition geb (x y : float) : bool := SFleb y x.
Definition eqb (x y : float) : bool := SFeqb x y.

(** [std::numeric_limits<float>::max()] *)
Definition max_float : float := SFmax_float prec emax.
Definition opp : float -> float := SFopp.

(** the float nearest to the decimal 0.1, i.e. [float(std::stod("0.1"))] *)
Definition one_tenth : float := S754_finite false 13421773 (-27).

End F32.

Definition float : Type := F32.float.

(** ** board.h: cells, rows, grid *)

Definition cell : Type := Z.

Definition to_int (x : cell) : Z := if x <? 2 ^ 31 then x else x - 2 ^ 32.
Definition to_cell (z : Z) : cell := z mod 2 ^ 32.

Record row : Type := Row { c0 : cell; c1 : cell; c2 : cell; c3 : cell }.
Record grid : Type := Grid { g0 : row; g1 : row; g2 : row; g3 : row }.
Record board : Type := Board { tile : grid; attr : Z }.

(** [row[i]] read and write; the source only uses indices 0..3 *)
Definition row_get (r : row) (i : Z) : cell :=
  match i with
  | 0 => c0 r | 1 => c1 r | 2 => c2 r | 3 => c3 r
  | _ => 0
  end.

Definition row_set (r : row) (i : Z) (v : cell) : row :=
  match i with
  | 0 => Row v (c1 r) (c2 r) (c3 r)
  | 1 => Row (c0 r) v (c2 r) (c3 r)
  | 2 => Row (c0 r) (c1 r) v (c3 r)
  | 3 => Row (c0 r) (c1 r) (c2 r) v
  | _ => r
  end.

Definition grid_get (g : grid) (i : Z) : row :=
  match i with
  | 0 => g0 g | 1 => g1 g | 2 => g2 g | 3 => g3 g
  | _ => Row 0 0 0 0
  end.

Definition grid_set (g : grid) (i : Z) (r : row) : grid :=
  match i with
  | 0 => Grid r (g1 g) (g2 g) (g3 g)
  | 1 => Grid (g0 g) r (g2 g) (g3 g)
  | 2 => Grid (g0 g) (g1 g) r (g3 g)
  | 3 => Grid (g0 g) (g1 g) (g2 g) r
  | _ => g
  end.

(** [tile[r][c]] *)
Definition get (b : board) (r c : Z) : cell := row_get (grid_get (tile b) r) c.

Definition set (b : board) (r c : Z) (v : cell) : board :=
  Board (grid_set (tile b) r (row_set (grid_get (tile b) r) c v)) (attr b).

Definition set_row (b : board) (r : Z) (rw : row) : board :=
  Board (grid_set (tile b) r rw) (attr b).

(** [operator()(i)]: the 1-d form, [tile[i / 4][i % 4]] *)
Definition at1 (b : board) (i : Z) : cell := get b (i / 4) (i mod 4).

(** [operator==] compares the grids only *)
Definition row_eqb (a b : row) : bool :=
  (c0 a =? c0 b) && (c1 a =? c1 b) && (c2 a =? c2 b) && (c3 a =? c3 b).

Definition grid_eqb (a b : grid) : bool :=
  row_eqb (g0 a) (g0 b) && row_eqb (g1 a) (g1 b) &&
  row_eqb (g2 a) (g2 b) && row_eqb (g3 a) (g3 b).

Definition board_eqb (a b : board) : bool := grid_eqb (tile a) (tile b).

Definition empty_row : row := Row 0 0 0 0.
Definition empty_board : board :=
  Board (Grid empty_row empty_row empty_row empty_row) 0.

(** ** board.h: the Fibonacci table *)

Definition fib : list Z :=
  [0; 1; 2; 3; 5; 8; 13; 21; 34; 55; 89; 144; 233;
   377; 610; 987; 1597; 2584; 4181; 6765; 10946; 17711; 28657;
   46368; 75025; 121393; 196418; 317811; 514229; 832040; 1346269;
   2178309; 3524578].

(** [fibonacci(i)] is [fib[i]].  The table has 33 entries and the source
    does not check [i]; outside 0..32 the C++ read is undefined and the
    value given here (0) is only a placeholder. *)
Definition fibonacci (i : Z) : Z := nth (Z.to_nat i) fib 0.

(** ** board.h: transforms *)

Definition swap (b : board) (p q : Z * Z) : board :=
  let x := get b (fst p) (snd p) in
  let y := get b (fst q) (snd q) in
  set (set b (fst p) (snd p) y) (fst q) (snd q) x.

Definition upto4 : list Z := [0; 1; 2; 3].

Definition transpose (b : board) : board :=
  fold_left
    (fun b r =>
       fold_left (fun b c => swap b (r, c) (c, r))
                 (filter (fun c => r + 1 <=? c) upto4) b)
    upto4 b.

Definition reflect_horizontal (b : board) : board :=
  fold_left (fun b r => swap (swap b (r, 0) (r, 3)) (r, 1) (r, 2)) upto4 b.

Definition reflect_vertical (b : board) : board :=
  fold_left (fun b c => swap (swap b (0, c) (3, c)) (1, c) (2, c)) upto4 b.

Definition rotate_right (b : board) : board := reflect_horizontal (transpose b).
Definition rotate_left (b : board) : board := reflect_vertical (transpose b).
Definition reverse (b : board) : board := reflect_vertical (reflect_horizontal b).

(** ** board.h: slides *)

(** The state of the scan of one row in [slide_left]: the row being
    rewritten in place, the write cursor [top], the pending tile [hold]
    and the running [score] (one variable for the whole board). *)
Record scan : Type :=
  Scan { s_row : row; s_top : Z; s_hold : Z; s_score : Z }.

(** One iteration of [for (int c = 0; c < 4; c++)].  The difference
    [tile - hold] is written in [Z] and the table read goes through
    [fibonacci]: both are those of the source inside the cell domain. *)
Definition scan_cell (st : scan) (c : Z) : scan :=
  let t := to_int (row_get (s_row st) c) in
  if t =? 0 then st
  else
    let rw := row_set (s_row st) c 0 in
    let top := s_top st in
    let hold := s_hold st in
    if negb (hold =? 0) then
      if (Z.abs (t - hold) =? 1) || ((t =? 1) && (hold =? 1)) then
        Scan (row_set rw top (to_cell (Z.max t hold + 1))) (top + 1) 0
             (s_score st + fibonacci (Z.max t hold + 1))
      else
        Scan (row_set rw top (to_cell hold)) (top + 1) t (s_score st)
    else
      Scan rw top t (s_score st).

(** The body of [for (int r = 0; r < 4; r++)] on one row, started with the
    score accumulated so far. *)
Definition slide_row (rw : row) (score : Z) : row * Z :=
  let st := fold_left scan_cell upto4 (Scan rw 0 0 score) in
  (if negb (s_hold st =? 0)
   then row_set (s_row st) (s_top st) (to_cell (s_hold st))
   else s_row st,
   s_score st).

(** One iteration of [for (int r = 0; r < 4; r++)]: row [r] rewritten in
    the board, the score carried on. *)
Definition slide_row_at (acc : board * Z) (r : Z) : board * Z :=
  let (rw, sc) := slide_row (grid_get (tile (fst acc)) r) (snd acc) in
  (set_row (fst acc) r rw, sc).

(** The four rows rewritten, with the score before the final test. *)
Definition slide_rows (b : board) : board * Z :=
  fold_left slide_row_at upto4 (b, 0).

Definition slide_left (b : board) : board * Z :=
  let prev := b in
  let (b', score) := slide_rows b in
  (b', if negb (board_eqb b' prev) then score else -1).

Definition slide_right (b : board) : board * Z :=
  let (b', score) := slide_left (reflect_horizontal b) in
  (reflect_horizontal b', score).

Definition slide_up (b : board) : board * Z :=
  let (b', score) := slide_right (rotate_right b) in
  (rotate_left b', score).

Definition slide_down (b : board) : board * Z :=
  let (b', score) := slide_left (rotate_right b) in
  (rotate_left b', score).

Definition slide (opcode : Z) (b : board) : board * Z :=
  match Z.land opcode 3 with
  | 0 => slide_up b
  | 1 => slide_right b
  | 2 => slide_down b
  | 3 => slide_left b
  | _ => (b, -1)
  end.

(** Boards written row by row. *)
Definition mk_board (a b c d : row) : board := Board (Grid a b c d) 0.

(** ** board.h: the monotonic heuristic *)

(** The body shared by the two inner loops of [monotonic]: compare two
    neighbouring cells (as [int]s), extend or restart the run, and raise
    [max_length] when the run is longer.  The state is
    [(length, max_length)].  The difference is written in [Z]: it is the
    [int] subtraction of the source for cells below [2^31], where it
    cannot overflow. *)
Definition mono_step (direction : Z) (x y : cell) (st : Z * Z) : Z * Z :=
  let (length, max_length) := st in
  if to_int x - to_int y =? direction then
    let length := length + 1 in
    (length, if max_length <? length then length else max_length)
  else (1, max_length).

Definition directions : list Z := [1; -1].

Definition monotonic (b : board) : Z :=
  let max_length := 0 in
  (* row check *)
  let max_length :=
    fold_left
      (fun m r =>
         fold_left
           (fun m direction =>
              snd (fold_left
                     (fun st c => mono_step direction (get b r c) (get b r (c + 1)) st)
                     [0; 1; 2] (1, m)))
           directions m)
      upto4 max_length in
  (* column check *)
  fold_left
    (fun m c =>
       fold_left
         (fun m direction =>
            snd (fold_left
                   (fun st r => mono_step direction (get b r c) (get b (r + 1) c) st)
                   [0; 1; 2] (0, m)))
         directions m)
    upto4 max_length.

(** ** agent.h: the weight tables and index extraction *)

Definition MAX_INDEX : Z := 24.

(** Modelled from the spec: [weight.h] is not among the sources.  The
    spec gives a weight table as a dense vector of 32-bit floats, zero at
    initialisation and read and written by index; [net[k][i]] is entry
    [i] of table [k].  [init_weights] gives tables 0 and 1 [MAX_INDEX^6]
    entries and tables 2 and 3 [MAX_INDEX^4] entries; an access is in
    bounds when [0 <= i < table_size k].  An index outside that range
    has an entry in this model, where the source leaves the vector: the
    statements about entries are made for boards whose indices are in
    bounds. *)
Definition weights : Type := nat -> Z -> float.

Definition table_size (k : nat) : Z :=
  match k with
  | 0%nat | 1%nat => MAX_INDEX * MAX_INDEX * MAX_INDEX * MAX_INDEX * MAX_INDEX * MAX_INDEX
  | _ => MAX_INDEX * MAX_INDEX * MAX_INDEX * MAX_INDEX
  end.

Definition zero_weights : weights := fun _ _ => F32.zero.

(** [net[k][i] += adjust] *)
Definition wadd (net : weights) (k : nat) (i : Z) (adjust : float) : weights :=
  fun k' i' =>
    if (Nat.eqb k' k) && (i' =? i) then F32.add (net k i) adjust else net k' i'.

(** [std::min((int)after(a), MAX_INDEX - 1)].  The products and sums of
    [extract_index] below are written in [Z]; they are the [int]
    arithmetic of the source as long as no product overflows, which
    holds for cells below [2^31]: each clamp then lies in 0..23.  The
    statements about indices and table entries carry that bound. *)
Definition clamp (after : board) (a : Z) : Z :=
  Z.min (to_int (at1 after a)) (MAX_INDEX - 1).

Definition extract_index4 (after : board) (a b c d : Z) : Z :=
  MAX_INDEX * MAX_INDEX * MAX_INDEX * clamp after a +
  MAX_INDEX * MAX_INDEX * clamp after b +
  MAX_INDEX * clamp after c +
  clamp after d.

Definition extract_index6 (after : board) (a b c d e f : Z) : Z :=
  MAX_INDEX * MAX_INDEX * MAX_INDEX * MAX_INDEX * MAX_INDEX * clamp after a +
  MAX_INDEX * MAX_INDEX * MAX_INDEX * MAX_INDEX * clamp after b +
  MAX_INDEX * MAX_INDEX * MAX_INDEX * clamp after c +
  MAX_INDEX * MAX_INDEX * clamp after d +
  MAX_INDEX * clamp after e +
  clamp after f.

(** ** agent.h: the loop over orientations *)

(** The first [switch (i)] of the loop body of [estimate_value] and of
    [adjust_value], and the second one, which undoes it. *)
Definition turn (i : Z) (tmp : board) : board :=
  match i with
  | 1 => rotate_left (rotate_left tmp)
  | 2 => rotate_left tmp
  | 3 => rotate_right tmp
  | _ => tmp
  end.

Definition unturn (i : Z) (tmp : board) : board :=
  match i with
  | 1 => rotate_right (rotate_right tmp)
  | 2 => rotate_right tmp
  | 3 => rotate_left tmp
  | _ => tmp
  end.

(** [for (int i : {0, 1, 2, 3})] with the working copy [tmp] carried from
    one iteration to the next; [body] is what sits between the two
    switches.  Returns the accumulated state and the final [tmp]. *)
Definition orient_loop {A : Type} (body : A -> board -> A)
    (init : A) (after : board) : A * board :=
  fold_left
    (fun (st : A * board) i =>
       let tmp := turn i (snd st) in
       (body (fst st) tmp, unturn i tmp))
    upto4 (init, after).

Definition estimate_body (net : weights) (value : float) (tmp : board) : float :=
  let value := F32.add value (net 0%nat (extract_index6 tmp 0 1 4 5 8 9)) in
  let value := F32.add value (net 1%nat (extract_index6 tmp 1 2 5 6 9 10)) in
  let value := F32.add value (net 2%nat (extract_index4 tmp 2 6 10 14)) in
  F32.add value (net 3%nat (extract_index4 tmp 3 7 11 15)).

Definition estimate_value (net : weights) (after : board) : float :=
  fst (orient_loop (estimate_body net) F32.zero after).

Definition adjust_body (adjust : float) (net : weights) (tmp : board) : weights :=
  let net := wadd net 0%nat (extract_index6 tmp 0 1 4 5 8 9) adjust in
  let net := wadd net 1%nat (extract_index6 tmp 1 2 5 6 9 10) adjust in
  let net := wadd net 2%nat (extract_index4 tmp 2 6 10 14) adjust in
  wadd net 3%nat (extract_index4 tmp 3 7 11 15) adjust.

(** [adjust_value]: the adjustment is computed once, from the weights as
    they are on entry. *)
Definition adjustment (net : weights) (alpha : float) (after : board)
    (target : float) : float :=
  let current := estimate_value net after in
  let error := F32.sub target current in
  F32.mul alpha error.

Definition adjust_value (net : weights) (alpha : float) (after : board)
    (target : float) : weights :=
  fst (orient_loop (adjust_body (adjustment net alpha after target)) net after).

(** ** agent.h: the player *)

Record step : Type := Step { reward : Z; after : board }.

Record player : Type :=
  Player { net : weights; alpha : float; history : list step }.

(** [history[i]]; the source never indexes past the end. *)
Definition hist_at (h : list step) (i : nat) : step :=
  nth i h (Step 0 empty_board).

Inductive action : Type :=
| Slide (dir : Z)
| Null.

(** Modelled from the spec: [action.h] is not among the sources, so what
    [action::slide(op)] builds is taken from the learner-to-driver
    contract: an action is [Slide(dir)] with [dir] in 0..3 or [Null], and
    [take_action] emits the null action when no op was chosen, which is
    when it passes the op code [-1]. *)
Definition action_slide (op : Z) : action :=
  if (0 <=? op) && (op <=? 3) then Slide op else Null.

(** The locals of [take_action]. *)
Record best : Type :=
  Best { best_op : Z; best_reward : Z; best_value : float; best_after : board }.

Definition best_init : best :=
  Best (-1) (-1) (F32.opp F32.max_float) empty_board.

(** [value + reward] with [reward] an [int] *)
Definition composite (value : float) (r : Z) : float :=
  F32.add value (F32.of_int r).

(** One iteration of [for (int op : {0, 1, 2, 3})]. *)
Definition try_op (w : weights) (before : board) (bst : best) (op : Z) : best :=
  let (aft, r) := slide op before in
  if r =? -1 then bst
  else
    let value := estimate_value w aft in
    if F32.geb (composite value r)
               (composite (best_value bst) (best_reward bst))
    then Best op r value aft
    else bst.

Definition choose (w : weights) (before : board) : best :=
  fold_left (try_op w before) upto4 best_init.

Definition take_action (p : player) (before : board) : action * player :=
  let bst := choose (net p) before in
  let p' :=
    if negb (best_op bst =? -1)
    then Player (net p) (alpha p)
                (history p ++ [Step (best_reward bst) (best_after bst)])
    else p in
  (action_slide (best_op bst), p').

Definition open_episode (p : player) : player :=
  Player (net p) (alpha p) [].

(** The target computed in the loop of [close_episode] for index [i],
    with the weights as they are at that iteration. *)
Definition td_target (h : list step) (w : weights) (i : nat) : float :=
  F32.add (F32.of_int (reward (hist_at h i)))
          (estimate_value w (after (hist_at h (i + 1)))).

(** One iteration of [for (int i = history.size() - 2; i >= 0; i--)]. *)
Definition td_step (h : list step) (a : float) (w : weights) (i : nat) : weights :=
  let target := td_target h w i in
  adjust_value w a (after (hist_at h i)) target.

(** The indices [size - 2, ..., 0] the loop runs through (none when the
    history has one element). *)
Definition td_indices (h : list step) : list nat :=
  rev (seq 0 (length h - 1)).

Definition close_episode (p : player) : player :=
  match history p with
  | [] => p
  | _ =>
      if F32.eqb (alpha p) (F32.of_int 0) then p
      else
        let h := history p in
        let w := adjust_value (net p) (alpha p)
                   (after (hist_at h (length h - 1))) (F32.of_int 0) in
        Player (fold_left (td_step h (alpha p)) (td_indices h) w)
               (alpha p) h
  end.

(** ** board.h: the inverse of the Fibonacci table, counts, placement *)

(** [std::find(fib, fib + n, i)] followed by [std::distance]: the index
    of the first entry equal to [x], counted from [k]. *)
Fixpoint find_from (l : list Z) (x : Z) (k : Z) : option Z :=
  match l with
  | [] => None
  | y :: l' => if y =? x then Some k else find_from l' x (k + 1)
  end.

Definition r_fibonacci (i : Z) : Z :=
  match find_from fib i 0 with
  | Some k => k
  | None => -1
  end.

(** [int tile = row[c]; if (tile == 0) count++;] over the sixteen cells. *)
Definition num_empty (b : board) : Z :=
  fold_left
    (fun count r =>
       fold_left
         (fun count c => if to_int (get b r c) =? 0 then count + 1 else count)
         upto4 count)
    upto4 0.

(** [sum += tile[r][c]] with [sum] an [int] and the cell a [uint32_t]:
    the addition is made on 32 bits and the result read back as [int]. *)
Definition corner_sum (b : board) : Z :=
  fold_left
    (fun sum r =>
       fold_left (fun sum c => to_int (to_cell (sum + get b r c))) [0; 3] sum)
    [0; 3] 0.

(** [place(pos, tile)] with [pos] an [unsigned] (so [0 <= pos]): the
    board it leaves and the value it returns. *)
Definition place (b : board) (pos : Z) (t : cell) : board * Z :=
  if 16 <=? pos then (b, -1)
  else if negb (t =? 1) && negb (t =? 2) then (b, -1)
  else (set b (pos / 4) (pos mod 4) t, 0).

(** [rotate(r)]: [%] truncates toward zero, as [Z.rem] does. *)
Definition rotate (b : board) (r : Z) : board :=
  match Z.rem (Z.rem r 4 + 4) 4 with
  | 1 => rotate_right b
  | 2 => reverse b
  | 3 => rotate_left b
  | _ => b
  end.

(** ** board.h: the comparison operators *)

(** [operator<] of [std::array]: the lexicographic order of
    [std::lexicographical_compare], element by element with [<]. *)
Fixpoint lex_lt {A : Type} (lt : A -> A -> bool) (a b : list A) : bool :=
  match a, b with
  | x :: a', y :: b' =>
      if lt x y then true else if lt y x then false else lex_lt lt a' b'
  | [], _ :: _ => true
  | _, [] => false
  end.

Definition row_cells (r : row) : list cell := [c0 r; c1 r; c2 r; c3 r].
Definition row_ltb (a b : row) : bool := lex_lt Z.ltb (row_cells a) (row_cells b).
Definition grid_rows (g : grid) : list row := [g0 g; g1 g; g2 g; g3 g].

(** [operator<], [!=], [>], [<=], [>=] of [board], each as the source
    writes it from [<] and [==]. *)
Definition board_ltb (a b : board) : bool :=
  lex_lt row_ltb (grid_rows (tile a)) (grid_rows (tile b)).
Definition board_neb (a b : board) : bool := negb (board_eqb a b).
Definition board_gtb (a b : board) : bool := board_ltb b a.
Definition board_leb (a b : board) : bool := negb (board_ltb b a).
Definition board_geb (a b : board) : bool := negb (board_ltb a b).

(** ** agent.h: index extraction on five cells *)

Definition extract_index5 (after : board) (a b c d e : Z) : Z :=
  MAX_INDEX * MAX_INDEX * MAX_INDEX * MAX_INDEX * clamp after a +
  MAX_INDEX * MAX_INDEX * MAX_INDEX * clamp after b +
  MAX_INDEX * MAX_INDEX * clamp after c +
  MAX_INDEX * clamp after d +
  clamp after e.

(** ** agent.h: the properties of an agent *)

(** [std::isspace] in the classic locale: the space and the control
    characters 9 to 13 (tab, line feed, vertical tab, form feed, carriage
    return). *)
Definition isspace (c : ascii) : bool :=
  let n := nat_of_ascii c in
  Nat.eqb n 32 || (Nat.leb 9 n && Nat.leb n 13).

(** [for (std::string pair; ss >> pair; )]: each extraction skips the
    whitespace in front and reads up to the next whitespace or the end;
    it fails when nothing is left.  [cur] is the token read so far. *)
Fixpoint tokens_from (s : string) (cur : string) : list string :=
  match s with
  | EmptyString =>
      match cur with
      | EmptyString => []
      | _ => [cur]
      end
  | String c s' =>
      if isspace c then
        match cur with
        | EmptyString => tokens_from s' EmptyString
        | _ => cur :: tokens_from s' EmptyString
        end
      else tokens_from s' (cur ++ String c EmptyString)
  end.

Definition tokens (s : string) : list string := tokens_from s EmptyString.

(** [s.find(c)]: the index of the first [c], [None] for [npos]. *)
Fixpoint find_char (c : ascii) (s : string) : option nat :=
  match s with
  | EmptyString => None
  | String d s' =>
      if Ascii.eqb d c then Some 0%nat else option_map S (find_char c s')
  end.

(** [s.substr(pos, n)], with [None] for a count of [npos] (to the end). *)
Definition substr (s : string) (pos : nat) (n : option nat) : string :=
  substring pos
    (match n with Some n => n | None => String.length s - pos end)%nat s.

(** [pair.substr(0, pair.find('='))] *)
Definition key_of (pair : string) : string :=
  substr pair 0 (find_char "=" pair).

(** [pair.substr(pair.find('=') + 1)]; [npos + 1] wraps to 0. *)
Definition value_of (pair : string) : string :=
  substr pair
    (match find_char "=" pair with Some i => i + 1 | None => 0 end)%nat None.

(** [std::map<key, value> meta] *)
Definition meta : Type := string -> option string.

Definition no_meta : meta := fun _ => None.

(** [meta[key] = { value }] *)
Definition meta_set (m : meta) (key value : string) : meta :=
  fun k => if String.eqb k key then Some value else m k.

Definition notify (m : meta) (msg : string) : meta :=
  meta_set m (key_of msg) (value_of msg).

(** [property(key)] is [meta.at(key)], which throws when the key is
    absent: [None]. *)
Definition property (m : meta) (key : string) : option string := m key.

Definition name (m : meta) : option string := property m "name".
Definition role (m : meta) : option string := property m "role".

(** The constructor of [agent]. *)
Definition agent_meta (args : string) : meta :=
  fold_left
    (fun (m : meta) (pair : string) =>
       let key := key_of pair in
       let value := value_of pair in
       meta_set m key value)
    (tokens ("name=unknown role=unknown " ++ args)) no_meta.

(** The constructors of [player], [rndenv] and [dummy_player], as far as
    [meta] goes. *)
Definition player_meta (args : string) : meta :=
  agent_meta ("name=dummy role=player " ++ args).
Definition rndenv_meta (args : string) : meta :=
  agent_meta ("name=random role=environment " ++ args).
Definition dummy_player_meta (args : string) : meta :=
  agent_meta ("name=dummy role=player " ++ args).

(** ** agent.h: the random environment *)

(** [rndenv::take_action] after the shuffle: [space] is the shuffled
    array and [popup] the number drawn from 0..9.  The result is the
    position and the tile given to [action::place], or [None] where the
    source returns the null [action()]. *)
Fixpoint rndenv_scan (space : list Z) (popup : Z) (aft : board) : option (Z * cell) :=
  match space with
  | [] => None
  | pos :: space' =>
      if negb (at1 aft pos =? 0) then rndenv_scan space' popup aft
      else Some (pos, if negb (popup =? 0) then 1 else 2)
  end.

(** ** agent.h: the dummy player *)

(** [if (best_op != -1) return action::slide(best_op); else return
    action();]: the op given to [action::slide], if any. *)
Definition finish (best_op : Z) : option Z :=
  if negb (best_op =? -1) then Some best_op else None.

(** The loop of mode [score]; the state is [(best_op, best_reward)]. *)
Definition score_loop (opcode : list Z) (before : board) : Z * Z :=
  fold_left
    (fun st op =>
       let reward := snd (slide op before) in
       if snd st <=? reward then (op, reward) else st)
    opcode (-1, 0).

(** The loop shared by the modes [space], [monotonic] and [corner]: the
    slide is applied to a copy, an illegal op is skipped, and the op is
    kept when its score [f tmp_board reward] is at least the best so
    far.  The state is [(best_op, best)].  The [int] additions of the
    scores are written without wrap-around. *)
Definition heuristic_loop (f : board -> Z -> Z) (opcode : list Z)
    (before : board) : Z * Z :=
  fold_left
    (fun st op =>
       let (tmp_board, reward) := slide op before in
       if reward =? -1 then st
       else if snd st <=? f tmp_board reward then (op, f tmp_board reward)
       else st)
    opcode (-1, 0).

(** The loop of the default mode: the first legal op. *)
Fixpoint first_legal (opcode : list Z) (before : board) : option Z :=
  match opcode with
  | [] => None
  | op :: opcode' =>
      if negb (snd (slide op before) =? -1) then Some op
      else first_legal opcode' before
  end.

(** [dummy_player::take_action] after the shuffle, [opcode] being the
    shuffled array: the op given to [action::slide], if any. *)
Definition dummy_op (mode : string) (opcode : list Z)
    (before : board) : option Z :=
  if String.eqb mode "moron" then None
  else if String.eqb mode "score" then
    finish (fst (score_loop opcode before))
  else if String.eqb mode "space" then
    finish (fst (heuristic_loop (fun tmp _ => num_empty tmp) opcode before))
  else if String.eqb mode "monotonic" then
    finish (fst (heuristic_loop (fun tmp reward => reward + monotonic tmp)
                                opcode before))
  else if String.eqb mode "corner" then
    finish (fst (heuristic_loop (fun tmp reward => reward + corner_sum tmp)
                                opcode before))
  else first_legal opcode before.

Definition dummy_take_action (mode : string) (opcode : list Z)
    (before : board) : action :=
  match dummy_op mode opcode before with
  | Some op => action_slide op
  | None => Null
  end.

(** * Vocabulary of the statements *)

(** The sixteen 1-d positions. *)
Definition positions : list Z :=
  [0; 1; 2; 3; 4; 5; 6; 7; 8; 9; 10; 11; 12; 13; 14; 15].

(** The cell domain of the data model: every cell in [0, MAX_INDEX).
    Inside it no cast changes a value, and a merge of two cells reads the
    Fibonacci table at [max + 1 <= MAX_INDEX], inside its 33 entries. *)
Definition cell_domain (b : board) : Prop :=
  forallb (fun i => (0 <=? at1 b i) && (at1 b i <? MAX_INDEX)) positions = true.

(** A scan state with [k] added to its score. *)
Definition shift_score (k : Z) (st : scan) : scan :=
  Scan (s_row st) (s_top st) (s_hold st) (k + s_score st).

(** The rewards of the four rows of [b], each slid on its own. *)
Definition row_rewards (b : board) : Z :=
  snd (slide_row (g0 (tile b)) 0) + snd (slide_row (g1 (tile b)) 0) +
  snd (slide_row (g2 (tile b)) 0) + snd (slide_row (g3 (tile b)) 0).

(** The merge condition of [slide_left] on two tile indices. *)
Definition mergeable (a b : Z) : Prop := Z.abs (a - b) = 1 \/ (a = 1 /\ b = 1).

(** What [slide] does around [slide_left] for each opcode: the transforms
    applied before it and the ones applied after it. *)
Definition toward_left (d : Z) (b : board) : board :=
  match d with
  | 0 => reflect_horizontal (rotate_right b)
  | 1 => reflect_horizontal b
  | 2 => rotate_right b
  | _ => b
  end.

Definition back_from_left (d : Z) (b : board) : board :=
  match d with
  | 0 => rotate_left (reflect_horizontal b)
  | 1 => reflect_horizontal b
  | 2 => rotate_left b
  | _ => b
  end.

Definition column_4321 : board :=
  mk_board (Row 4 0 0 0) (Row 3 0 0 0) (Row 2 0 0 0) (Row 1 0 0 0).

(** A board whose first cell holds [0xFFFFFFFF], the value the board
    reader stores when [r_fibonacci] answers -1. *)
Definition corrupt_board : board :=
  mk_board (Row 4294967295 0 0 0) empty_row empty_row empty_row.

(** One entry of the weight bank: table number and index. *)
Definition entry : Type := (nat * Z)%type.

Definition entry_eqb (x y : entry) : bool :=
  Nat.eqb (fst x) (fst y) && (snd x =? snd y).

Definition entry_eq_dec (x y : entry) : {x = y} + {x <> y}.
Proof. decide equality; [apply Z.eq_dec | apply Nat.eq_dec]. Defined.

Definition lookup (w : weights) (e : entry) : float := w (fst e) (snd e).

(** The four entries the loop body of [estimate_value] and of
    [adjust_value] touches for one orientation [tmp], in source order. *)
Definition touched (tmp : board) : list entry :=
  [(0%nat, extract_index6 tmp 0 1 4 5 8 9);
   (1%nat, extract_index6 tmp 1 2 5 6 9 10);
   (2%nat, extract_index4 tmp 2 6 10 14);
   (3%nat, extract_index4 tmp 3 7 11 15)].

(** The sixteen entries of one pass over the orientations: identity,
    half turn, quarter turn counterclockwise, quarter turn clockwise. *)
Definition reads (b : board) : list entry :=
  touched b ++ touched (rotate_left (rotate_left b)) ++
  touched (rotate_left b) ++ touched (rotate_right b).

(** A float sum in list order, from [0.0f]. *)
Definition fsum (l : list float) : float := fold_left F32.add l F32.zero.

(** [net[k][i] += adjust] at entry [e] *)
Definition bump (adjust : float) (w : weights) (e : entry) : weights :=
  wadd w (fst e) (snd e) adjust.

Fixpoint distinctb (l : list entry) : bool :=
  match l with
  | [] => true
  | x :: l' => negb (existsb (entry_eqb x) l') && distinctb l'
  end.

(** The sixteen entries touched for [b] are pairwise different. *)
Definition distinct_slots (b : board) : Prop := distinctb (reads b) = true.

(** [0.5f] *)
Definition half : float := S754_finite false 8388608 (-24).

(** Two boards whose sixteen touched entries are pairwise different, and
    different from one board to the other. *)
Definition board_s0 : board :=
  mk_board (Row 1 2 3 4) (Row 5 6 7 8) (Row 9 10 11 12) (Row 13 14 15 16).

Definition board_s1 : board :=
  mk_board (Row 2 3 4 5) (Row 6 7 8 9) (Row 10 11 12 13) (Row 14 15 16 17).

(** A player with zeroed tables, [alpha=0.1] and the two-step history
    [(0, s0), (5, s1)]. *)
Definition episode_0_5 : player :=
  Player zero_weights F32.one_tenth [Step 0 board_s0; Step 5 board_s1].

(** A board with the single tile 1 at position 1, and weights that are
    zero except for [net[0][24^4] = 2^24], [net[0][24] = -2^24] and
    [net[3][24^2] = 1]: the entries of table 0 read for the board as it is
    and turned counterclockwise, and the entry of table 3 read for it
    turned clockwise. *)
Definition tile_at_1 : board :=
  mk_board (Row 0 1 0 0) empty_row empty_row empty_row.

Definition skewed_weights : weights :=
  fun k i =>
    match k with
    | 0%nat =>
        if i =? 331776 then F32.of_int 16777216
        else if i =? 24 then F32.of_int (-16777216)
        else F32.zero
    | 3%nat => if i =? 576 then F32.of_int 1 else F32.zero
    | _ => F32.zero
    end.

(** What the first successful comparison of [take_action] is made
    against: [best_value + best_reward] at their initial values,
    [-FLT_MAX + (-1)], which rounds to [-FLT_MAX]. *)
Definition sentinel : float :=
  composite (best_value best_init) (best_reward best_init).

(** Op [op] is legal on [before] and its [value + reward] passes the
    comparison against the initial best; as a test and as a proposition. *)
Definition admissibleb (w : weights) (before : board) (op : Z) : bool :=
  negb (snd (slide op before) =? -1) &&
  F32.geb (composite (estimate_value w (fst (slide op before)))
                     (snd (slide op before)))
          sentinel.

Definition admissible (w : weights) (before : board) (op : Z) : Prop :=
  snd (slide op before) <> -1 /\
  F32.geb (composite (estimate_value w (fst (slide op before)))
                     (snd (slide op before)))
          sentinel = true.

(** The locals of [take_action] describe a legal slide of [before]. *)
Definition chosen (before : board) (bst : best) : Prop :=
  In (best_op bst) upto4 /\
  slide (best_op bst) before = (best_after bst, best_reward bst) /\
  best_reward bst <> -1.

Definition alternating_board : board :=
  mk_board (Row 1 3 1 3) (Row 3 1 3 1) (Row 1 3 1 3) (Row 3 1 3 1).

(** A board with one mergeable pair, and two weight states: every weight
    [-FLT_MAX], every weight NaN. *)
Definition pair_board : board :=
  mk_board (Row 1 1 0 0) empty_row empty_row empty_row.

Definition sunk_weights : weights := fun _ _ => F32.opp F32.max_float.
Definition nan_weights : weights := fun _ _ => S754_nan.

(** The sixteen cells in the order of the 1-d positions. *)
Definition cells (b : board) : list cell := map (at1 b) positions.

Definition all_cells (P : cell -> Prop) (b : board) : Prop := Forall P (cells b).

(** 1 for a cell [num_empty] counts, 0 for any other. *)
Definition emptyZ (x : cell) : Z := if to_int x =? 0 then 1 else 0.

(** 1 for a tile, 0 for an empty cell. *)
Definition nz (x : Z) : Z := if x =? 0 then 0 else 1.

Definition row_tiles (r : row) : Z :=
  nz (c0 r) + nz (c1 r) + nz (c2 r) + nz (c3 r).

Definition board_tiles (b : board) : Z :=
  row_tiles (g0 (tile b)) + row_tiles (g1 (tile b)) +
  row_tiles (g2 (tile b)) + row_tiles (g3 (tile b)).

(** The invariant of the row scan on entering iteration [c]: the write
    cursor and the pending tile stay behind [c]; the pending tile and the
    cells still to read lie in the cell domain; the cells between the
    cursor and [c] are empty; the cells written so far hold tiles of
    index at most [MAX_INDEX]. *)
Definition scan_inv (c : Z) (st : scan) : Prop :=
  0 <= s_top st /\
  s_top st + nz (s_hold st) <= c /\
  0 <= s_hold st < MAX_INDEX /\
  (forall j, c <= j <= 3 -> 0 <= row_get (s_row st) j < MAX_INDEX) /\
  (forall j, s_top st <= j < c -> row_get (s_row st) j = 0) /\
  (forall j, 0 <= j < s_top st -> 0 < row_get (s_row st) j <= MAX_INDEX).

Definition row_domain (r : row) : Prop :=
  forall j, 0 <= j <= 3 -> 0 <= row_get r j < MAX_INDEX.

(** [m] merges took the scan from [st] to [st']: each removed one tile
    and added between 2 and 75025 (the largest table entry a merge
    inside the cell domain can reach) to the score. *)
Definition merged (m : Z) (st st' : scan) : Prop :=
  0 <= m /\
  row_tiles (s_row st') + nz (s_hold st') + m
  = row_tiles (s_row st) + nz (s_hold st) /\
  s_score st + 2 * m <= s_score st' <= s_score st + 75025 * m /\
  (m = 0 -> s_score st' = s_score st).

Definition in_domain (x : cell) : Prop := 0 <= x < MAX_INDEX.
Definition up_to_max (x : cell) : Prop := 0 <= x <= MAX_INDEX.

(** The tiles of row [r] are packed to the left: no tile follows an
    empty cell. *)
Definition packed_left (r : row) : Prop :=
  exists k, 0 <= k <= 4 /\
    (forall j, 0 <= j < k -> 0 < row_get r j) /\
    (forall j, k <= j <= 3 -> row_get r j = 0).

(** Cell [x] with the clamp of [extract_index] applied. *)
Definition capped (x : cell) : cell := Z.min x (MAX_INDEX - 1).

(** Every cell below [2^31]: the cast to [int] keeps it as it is. *)
Definition int_cells (b : board) : Prop := all_cells (fun x => 0 <= x < 2 ^ 31) b.

(** The index of entry [e] lies inside its table. *)
Definition in_table (e : entry) : Prop := 0 <= snd e < table_size (fst e).

(** Op [op] is legal on [before]. *)
Definition legalb (before : board) (op : Z) : bool :=
  negb (snd (slide op before) =? -1).

(** The last op of a list that is legal on [before], [-1] when none is. *)
Definition last_legal (before : board) (ops : list Z) : Z :=
  fold_left (fun acc op => if legalb before op then op else acc) ops (-1).

(** The [value + reward] that [take_action] compares for op [op]. *)
Definition op_composite (w : weights) (before : board) (op : Z) : float :=
  composite (estimate_value w (fst (slide op before))) (snd (slide op before)).

(** A board with the single tile 1 at position 5. *)
Definition tile_at_5 : board :=
  mk_board empty_row (Row 0 1 0 0) empty_row empty_row.

(** The score a loop of the dummy player gives to op [op] on [before]. *)
Definition op_score (f : board -> Z -> Z) (before : board) (op : Z) : Z :=
  f (fst (slide op before)) (snd (slide op before)).

(** What a loop that keeps the best op has found among [ops]: nothing,
    every op being illegal, or a legal op whose score [g] no legal op of
    [ops] exceeds. *)
Definition best_among (g : Z -> Z) (before : board) (ops : list Z)
    (st : Z * Z) : Prop :=
  (fst st = -1 /\ snd st = 0 /\
   forall op, In op ops -> legalb before op = false) \/
  (In (fst st) ops /\ legalb before (fst st) = true /\ snd st = g (fst st) /\
   forall op, In op ops -> legalb before op = true -> g op <= snd st).

(** No character of [s] satisfies [p]. *)
Fixpoint free_of (p : ascii -> bool) (s : string) : Prop :=
  match s with
  | EmptyString => True
  | String c s' => p c = false /\ free_of p s'
  end.

(** The last pair of [l] whose key is [k]. *)
Definition last_with_key (k : string) (l : list string) : option string :=
  find (fun pair => String.eqb (key_of pair) k) (rev l).

(** A [meta] that holds a name and a role and nothing else. *)
Definition named (n r : string) : meta :=
  meta_set (meta_set no_meta "name" n) "role" r.

(** What a [meta] answers for [k] once the pairs of [l] were stored in
    order: the value of the last pair with key [k], else what it held. *)
Definition after_pairs (m : meta) (l : list string) (k : string) : option string :=
  match last_with_key k l with
  | Some p => Some (value_of p)
  | None => m k
  end.

(** Two boards that differ in their first cell only: the last index of
    the cell domain, and [MAX_INDEX], which the merge of the indices 22
    and 23 writes. *)
Definition tile_23 : board :=
  mk_board (Row 23 0 0 0) empty_row empty_row empty_row.

Definition tile_24 : board :=
  mk_board (Row 24 0 0 0) empty_row empty_row empty_row.

(** A board of the cell domain whose first row holds the two highest
    indices that merge. *)
Definition tiles_22_23 : board :=
  mk_board (Row 22 23 0 0) empty_row empty_row empty_row.

(** * Properties *)

Example slide_scenario_A : slide_row (Row 1 1 0 0) 0 = (Row 2 0 0 0, 2).
Proof. reflexivity. Qed.

Example slide_scenario_B : slide_row (Row 2 3 0 0) 0 = (Row 4 0 0 0, 5).
Proof. reflexivity. Qed.

Example slide_scenario_C :
  slide 3 (mk_board (Row 2 4 0 0) empty_row empty_row empty_row)
  = (mk_board (Row 2 4 0 0) empty_row empty_row empty_row, -1).
Proof. reflexivity. Qed.

(** ** Cells and casts *)

Lemma to_int_small (x : cell) : 0 <= x < 2 ^ 31 -> to_int x = x.
Proof. intros H. unfold to_int. destruct (Z.ltb_spec x (2 ^ 31)); lia. Qed.

Lemma to_cell_small (z : Z) : 0 <= z < 2 ^ 32 -> to_cell z = z.
Proof. intros H. unfold to_cell. apply Z.mod_small. lia. Qed.

Lemma cell_domain_at (b : board) (i : Z) :
  cell_domain b -> In i positions -> 0 <= at1 b i < MAX_INDEX.
Proof.
  unfold cell_domain. rewrite forallb_forall. intros H Hi.
  specialize (H i Hi). apply andb_true_iff in H. lia.
Qed.

(** ** Boards: equality and the dihedral transforms *)

Ltac board_cells b :=
  destruct b as [[[? ? ? ?] [? ? ? ?] [? ? ? ?] [? ? ? ?]] ?].

Lemma row_eqb_eq (a b : row) : row_eqb a b = true <-> a = b.
Proof.
  destruct a, b. unfold row_eqb. cbn.
  rewrite !andb_true_iff, !Z.eqb_eq. split.
  - intros [[[-> ->] ->] ->]. reflexivity.
  - intros H. injection H as -> -> -> ->. auto.
Qed.

Lemma grid_eqb_eq (a b : grid) : grid_eqb a b = true <-> a = b.
Proof.
  destruct a, b. unfold grid_eqb. cbn.
  rewrite !andb_true_iff, !row_eqb_eq. split.
  - intros [[[-> ->] ->] ->]. reflexivity.
  - intros H. injection H as -> -> -> ->. auto.
Qed.

Lemma board_eqb_eq (a b : board) : board_eqb a b = true <-> tile a = tile b.
Proof. apply grid_eqb_eq. Qed.

Lemma board_ext (a b : board) : tile a = tile b -> attr a = attr b -> a = b.
Proof. destruct a, b. cbn. intros -> ->. reflexivity. Qed.

Lemma rotate_right_left (b : board) : rotate_right (rotate_left b) = b.
Proof. board_cells b. vm_compute. reflexivity. Qed.

Lemma rotate_left_right (b : board) : rotate_left (rotate_right b) = b.
Proof. board_cells b. vm_compute. reflexivity. Qed.

Lemma reflect_horizontal_invol (b : board) :
  reflect_horizontal (reflect_horizontal b) = b.
Proof. board_cells b. vm_compute. reflexivity. Qed.

Lemma reflect_vertical_invol (b : board) :
  reflect_vertical (reflect_vertical b) = b.
Proof. board_cells b. vm_compute. reflexivity. Qed.

Lemma transpose_invol (b : board) : transpose (transpose b) = b.
Proof. board_cells b. vm_compute. reflexivity. Qed.

Lemma rotate_right_four (b : board) :
  rotate_right (rotate_right (rotate_right (rotate_right b))) = b.
Proof. board_cells b. vm_compute. reflexivity. Qed.

Lemma reverse_two_rotations (b : board) :
  reverse b = rotate_left (rotate_left b).
Proof. board_cells b. vm_compute. reflexivity. Qed.

Lemma rotate_left_thrice (b : board) :
  rotate_left (rotate_left (rotate_left b)) = rotate_right b.
Proof. board_cells b. vm_compute. reflexivity. Qed.

Lemma rotate_left_four (b : board) :
  rotate_left (rotate_left (rotate_left (rotate_left b))) = b.
Proof. board_cells b. vm_compute. reflexivity. Qed.

Lemma rotate_right_after_half (b : board) :
  rotate_right (rotate_left (rotate_left b)) = rotate_left b.
Proof. board_cells b. vm_compute. reflexivity. Qed.

(** ** The row scan *)

Lemma mergeable_test (a b : Z) :
  (Z.abs (b - a) =? 1) || ((b =? 1) && (a =? 1)) = true <-> mergeable a b.
Proof.
  unfold mergeable.
  rewrite orb_true_iff, andb_true_iff, !Z.eqb_eq. lia.
Qed.

Lemma scan_cell_empty (st : scan) (c : Z) :
  row_get (s_row st) c = 0 -> scan_cell st c = st.
Proof. intros E. unfold scan_cell. rewrite E. reflexivity. Qed.

Lemma scan_cell_first (rw : row) (top score : Z) (c : Z) :
  0 < row_get rw c < 2 ^ 31 ->
  scan_cell (Scan rw top 0 score) c
  = Scan (row_set rw c 0) top (row_get rw c) score.
Proof.
  intros H. unfold scan_cell. cbn [s_row s_top s_hold s_score].
  rewrite to_int_small by lia.
  destruct (Z.eqb_spec (row_get rw c) 0); [lia | reflexivity].
Qed.

Lemma scan_cell_second (rw : row) (top hold score : Z) (c : Z) :
  0 < row_get rw c < 2 ^ 31 -> hold <> 0 ->
  scan_cell (Scan rw top hold score) c
  = let t := row_get rw c in
    if (Z.abs (t - hold) =? 1) || ((t =? 1) && (hold =? 1))
    then Scan (row_set (row_set rw c 0) top (to_cell (Z.max t hold + 1)))
              (top + 1) 0 (score + fibonacci (Z.max t hold + 1))
    else Scan (row_set (row_set rw c 0) top (to_cell hold)) (top + 1) t score.
Proof.
  intros H Hh. unfold scan_cell. cbn [s_row s_top s_hold s_score].
  rewrite to_int_small by lia.
  destruct (Z.eqb_spec (row_get rw c) 0); [lia|].
  destruct (Z.eqb_spec hold 0); [contradiction | reflexivity].
Qed.

Lemma slide_row_pair (a b : Z) :
  0 < a < MAX_INDEX -> 0 < b < MAX_INDEX ->
  slide_row (Row a 0 0 b) 0 =
  if (Z.abs (b - a) =? 1) || ((b =? 1) && (a =? 1))
  then (Row (Z.max b a + 1) 0 0 0, fibonacci (Z.max b a + 1))
  else (Row a b 0 0, 0).
Proof.
  unfold MAX_INDEX. intros Ha Hb.
  assert (E : fold_left scan_cell upto4 (Scan (Row a 0 0 b) 0 0 0)
              = scan_cell (Scan (Row 0 0 0 b) 0 a 0) 3).
  { unfold upto4. cbn [fold_left].
    rewrite (scan_cell_first (Row a 0 0 b) 0 0 0) by (cbn [row_get c0]; lia).
    cbn [row_get row_set c0 c1 c2 c3].
    rewrite (scan_cell_empty _ 1) by reflexivity.
    rewrite (scan_cell_empty _ 2) by reflexivity.
    reflexivity. }
  unfold slide_row. rewrite E. clear E.
  rewrite scan_cell_second by (cbn [row_get c3]; lia).
  cbn [row_get row_set c0 c1 c2 c3]. cbv zeta.
  destruct ((Z.abs (b - a) =? 1) || ((b =? 1) && (a =? 1))).
  - cbn [s_row s_top s_hold s_score Z.eqb negb row_set c0 c1 c2 c3].
    rewrite to_cell_small by lia. reflexivity.
  - cbn [s_row s_top s_hold s_score row_set c0 c1 c2 c3].
    destruct (Z.eqb_spec b 0); [lia|]. cbn [negb Z.add].
    cbn [row_set c0 c1 c2 c3 Pos.add].
    rewrite !to_cell_small by lia. reflexivity.
Qed.

(** C4, as amended.  For tile indices [a], [b] of the cell domain, both
    non-zero, sliding the row [a,0,0,b] left gives [max(a,b)+1,0,0,0] with
    reward [fib(max(a,b)+1)] exactly when [|a-b| = 1] or [a = b = 1], and
    gives [a,b,0,0] with reward 0 otherwise. *)
Theorem slide_row_merge_rule (a b : Z) :
  0 < a < MAX_INDEX -> 0 < b < MAX_INDEX ->
  (mergeable a b ->
   slide_row (Row a 0 0 b) 0
   = (Row (Z.max a b + 1) 0 0 0, fibonacci (Z.max a b + 1))) /\
  (~ mergeable a b -> slide_row (Row a 0 0 b) 0 = (Row a b 0 0, 0)) /\
  (slide_row (Row a 0 0 b) 0
   = (Row (Z.max a b + 1) 0 0 0, fibonacci (Z.max a b + 1))
   <-> mergeable a b).
Proof.
  intros Ha Hb.
  rewrite (slide_row_pair a b Ha Hb), (Z.max_comm a b).
  pose proof (mergeable_test a b) as T.
  destruct ((Z.abs (b - a) =? 1) || ((b =? 1) && (a =? 1))).
  - assert (M : mergeable a b) by now apply T.
    split; [reflexivity|]. split; [intros N; contradiction|].
    split; [intros _; exact M | reflexivity].
  - assert (N : ~ mergeable a b) by (intros M; apply T in M; discriminate).
    split; [intros M; contradiction|]. split; [reflexivity|].
    split; [|intros M; contradiction].
    intros E. injection E as E1 E2 E3. lia.
Qed.

Lemma slide_row_merge_rule_witness :
  0 < 2 < MAX_INDEX /\ 0 < 3 < MAX_INDEX /\
  slide_row (Row 2 0 0 3) 0 = (Row 4 0 0 0, 5).
Proof.
  assert (Ha : 0 < 2 < MAX_INDEX) by (unfold MAX_INDEX; lia).
  assert (Hb : 0 < 3 < MAX_INDEX) by (unfold MAX_INDEX; lia).
  split; [exact Ha|]. split; [exact Hb|].
  apply (proj1 (slide_row_merge_rule 2 3 Ha Hb)).
  left. reflexivity.
Defined.

(** C4 as it is worded fails where the right tile is the larger one:
    [2] and [3] merge, but into index 4 with reward [fib(4) = 5], not
    into [a + 1 = 3] with reward [fib(3)]. *)
Lemma slide_row_merge_not_left_plus_one :
  mergeable 2 3 /\
  slide_row (Row 2 0 0 3) 0 <> (Row (2 + 1) 0 0 0, fibonacci (2 + 1)) /\
  slide_row (Row 2 0 0 3) 0 = (Row 4 0 0 0, 5).
Proof.
  split; [left; reflexivity|]. split; [|reflexivity].
  intros E. discriminate E.
Qed.



(** ** Slides: the score and the legality test *)

Lemma fibonacci_nonneg (i : Z) : 0 <= fibonacci i.
Proof.
  unfold fibonacci.
  destruct (Nat.lt_ge_cases (Z.to_nat i) (length fib)) as [H | H].
  - assert (F : Forall (fun x => 0 <= x) fib)
      by (unfold fib; repeat constructor; lia).
    rewrite Forall_forall in F. apply F. now apply nth_In.
  - rewrite nth_overflow by exact H. lia.
Qed.

Lemma scan_cell_score (st : scan) (c : Z) :
  s_score st <= s_score (scan_cell st c).
Proof.
  unfold scan_cell.
  destruct (_ =? 0); [lia|].
  destruct (negb _); [|cbn [s_score]; lia].
  destruct (_ || _); cbn [s_score]; [|lia].
  match goal with
  | |- context [fibonacci ?x] => pose proof (fibonacci_nonneg x)
  end.
  lia.
Qed.

Lemma scan_cells_score (cs : list Z) (st : scan) :
  s_score st <= s_score (fold_left scan_cell cs st).
Proof.
  revert st. induction cs as [|c cs IH]; intros st; cbn [fold_left]; [lia|].
  eapply Z.le_trans; [apply (scan_cell_score st c) | apply IH].
Qed.

Lemma slide_row_score (rw : row) (score : Z) :
  score <= snd (slide_row rw score).
Proof. apply (scan_cells_score upto4 (Scan rw 0 0 score)). Qed.

Lemma slide_row_at_score (acc : board * Z) (r : Z) :
  snd acc <= snd (slide_row_at acc r).
Proof.
  unfold slide_row_at.
  pose proof (slide_row_score (grid_get (tile (fst acc)) r) (snd acc)) as H.
  destruct (slide_row _ _). exact H.
Qed.

Lemma slide_row_at_attr (acc : board * Z) (r : Z) :
  attr (fst (slide_row_at acc r)) = attr (fst acc).
Proof. unfold slide_row_at. destruct (slide_row _ _). reflexivity. Qed.

Lemma slide_rows_from_score (l : list Z) (acc : board * Z) :
  snd acc <= snd (fold_left slide_row_at l acc).
Proof.
  revert acc. induction l as [|r l IH]; intros acc; cbn [fold_left]; [lia|].
  eapply Z.le_trans; [apply (slide_row_at_score acc r) | apply IH].
Qed.

Lemma slide_rows_from_attr (l : list Z) (acc : board * Z) :
  attr (fst (fold_left slide_row_at l acc)) = attr (fst acc).
Proof.
  revert acc. induction l as [|r l IH]; intros acc; cbn [fold_left];
    [reflexivity|].
  rewrite IH. apply slide_row_at_attr.
Qed.

Lemma slide_rows_score (b : board) : 0 <= snd (slide_rows b).
Proof. apply (slide_rows_from_score upto4 (b, 0)). Qed.

Lemma slide_rows_attr (b : board) : attr (fst (slide_rows b)) = attr b.
Proof. apply (slide_rows_from_attr upto4 (b, 0)). Qed.

Lemma scan_cell_shift (k : Z) (st : scan) (c : Z) :
  scan_cell (shift_score k st) c = shift_score k (scan_cell st c).
Proof.
  unfold scan_cell, shift_score. cbn [s_row s_top s_hold s_score].
  destruct (_ =? 0); [reflexivity|].
  destruct (negb _); [|reflexivity].
  destruct (_ || _); cbn [s_row s_top s_hold s_score]; [|reflexivity].
  f_equal. lia.
Qed.

Lemma scan_cells_shift (k : Z) (cs : list Z) (st : scan) :
  fold_left scan_cell cs (shift_score k st)
  = shift_score k (fold_left scan_cell cs st).
Proof.
  revert st. induction cs as [|c cs IH]; intros st; cbn [fold_left];
    [reflexivity|].
  rewrite scan_cell_shift. apply IH.
Qed.

Lemma slide_row_from (rw : row) (score : Z) :
  slide_row rw score = (fst (slide_row rw 0), score + snd (slide_row rw 0)).
Proof.
  unfold slide_row.
  replace (Scan rw 0 0 score) with (shift_score score (Scan rw 0 0 0))
    by (unfold shift_score; cbn [s_row s_top s_hold s_score]; f_equal; lia).
  rewrite scan_cells_shift.
  generalize (fold_left scan_cell upto4 (Scan rw 0 0 0)) as st. intros st.
  unfold shift_score. cbn [fst snd s_row s_top s_hold s_score]. reflexivity.
Qed.

Lemma slide_rows_by_row (b : board) :
  slide_rows b
  = (Board (Grid (fst (slide_row (g0 (tile b)) 0))
                 (fst (slide_row (g1 (tile b)) 0))
                 (fst (slide_row (g2 (tile b)) 0))
                 (fst (slide_row (g3 (tile b)) 0)))
           (attr b),
     row_rewards b).
Proof.
  unfold row_rewards. destruct b as [[r0 r1 r2 r3] at0].
  unfold slide_rows, upto4. cbn [fold_left].
  unfold slide_row_at at 4. cbn [fst snd tile grid_get g0 g1 g2 g3].
  rewrite (slide_row_from r0 0).
  unfold set_row. cbn [tile attr grid_set g0 g1 g2 g3].
  unfold slide_row_at at 3. cbn [fst snd tile grid_get g0 g1 g2 g3].
  rewrite (slide_row_from r1 (0 + _)).
  unfold set_row. cbn [tile attr grid_set g0 g1 g2 g3].
  unfold slide_row_at at 2. cbn [fst snd tile grid_get g0 g1 g2 g3].
  rewrite (slide_row_from r2 (0 + _ + _)).
  unfold set_row. cbn [tile attr grid_set g0 g1 g2 g3].
  unfold slide_row_at. cbn [fst snd tile grid_get g0 g1 g2 g3].
  rewrite (slide_row_from r3 (0 + _ + _ + _)).
  unfold set_row. cbn [tile attr grid_set g0 g1 g2 g3].
  f_equal.
Qed.


Lemma slide_left_spec (b : board) :
  fst (slide_left b) = fst (slide_rows b) /\
  (snd (slide_left b) = -1 <-> fst (slide_left b) = b) /\
  (snd (slide_left b) <> -1 -> snd (slide_left b) = snd (slide_rows b)) /\
  (snd (slide_left b) <> -1 -> 0 <= snd (slide_left b)).
Proof.
  unfold slide_left.
  pose proof (slide_rows_score b) as Hs.
  pose proof (slide_rows_attr b) as Ha.
  destruct (slide_rows b) as [b' score]. cbn [fst snd] in *.
  split; [reflexivity|].
  destruct (board_eqb b' b) eqn:E; cbn [negb].
  - apply board_eqb_eq in E.
    split; [|split; congruence].
    split; [intros _; now apply board_ext | reflexivity].
  - split; [|split; [reflexivity | intros _; exact Hs]].
    split; [lia|]. intros ->.
    assert (board_eqb b b = true) by now apply board_eqb_eq.
    congruence.
Qed.


Lemma toward_back_from_left (d : Z) (b : board) :
  toward_left d (back_from_left d b) = b.
Proof.
  destruct d as [|[[|[]|]|[]|]|]; cbn [toward_left back_from_left];
    rewrite ?rotate_right_left, ?reflect_horizontal_invol; reflexivity.
Qed.

Lemma slide_via_left (d : Z) (b : board) :
  0 <= d <= 3 ->
  slide d b = (back_from_left d (fst (slide_left (toward_left d b))),
               snd (slide_left (toward_left d b))).
Proof.
  intros H.
  assert (C : d = 0 \/ d = 1 \/ d = 2 \/ d = 3) by lia.
  destruct C as [-> | [-> | [-> | ->]]];
    unfold slide; cbn [Z.land Pos.land toward_left back_from_left];
    unfold slide_up, slide_down, slide_right;
    repeat match goal with
    | |- context [slide_left ?x] => destruct (slide_left x)
    end; reflexivity.
Qed.





(** ** The monotonic heuristic *)

(** C7.  Evaluation of [monotonic] where it leaves the documented range
    and where the column scan undercounts: the empty board gives 0, and a
    board whose first column is the run 4,3,2,1 gives 3, although the same
    run laid out as a row gives 4. *)
Theorem monotonic_outside_documented_range :
  monotonic empty_board = 0 /\
  monotonic column_4321 = 3 /\
  monotonic (transpose column_4321) = 4.
Proof. repeat split; reflexivity. Qed.

(** ** Index extraction *)

Lemma clamp_range (b : board) (a : Z) :
  0 <= at1 b a < 2 ^ 31 -> 0 <= clamp b a <= MAX_INDEX - 1.
Proof.
  intros H. unfold clamp. rewrite to_int_small by exact H.
  unfold MAX_INDEX. lia.
Qed.

(** Where every referenced cell is below [2^31], so that the cast to
    [int] keeps it non-negative, the clamp does bound the index. *)
Lemma extract_index4_in_range (t : board) (a b c d : Z) :
  (forall p, In p [a; b; c; d] -> 0 <= at1 t p < 2 ^ 31) ->
  0 <= extract_index4 t a b c d < table_size 2.
Proof.
  intros H.
  pose proof (clamp_range t a (H a (or_introl eq_refl))).
  pose proof (clamp_range t b (H b (or_intror (or_introl eq_refl)))).
  pose proof (clamp_range t c (H c (or_intror (or_intror (or_introl eq_refl))))).
  pose proof (clamp_range t d
                (H d (or_intror (or_intror (or_intror (or_introl eq_refl)))))).
  unfold extract_index4, table_size, MAX_INDEX in *. lia.
Qed.

Lemma extract_index6_in_range (t : board) (a b c d e f : Z) :
  (forall p, In p [a; b; c; d; e; f] -> 0 <= at1 t p < 2 ^ 31) ->
  0 <= extract_index6 t a b c d e f < table_size 0.
Proof.
  intros H.
  assert (Ha : 0 <= clamp t a <= MAX_INDEX - 1)
    by (apply clamp_range, H; cbn; tauto).
  assert (Hb : 0 <= clamp t b <= MAX_INDEX - 1)
    by (apply clamp_range, H; cbn; tauto).
  assert (Hc : 0 <= clamp t c <= MAX_INDEX - 1)
    by (apply clamp_range, H; cbn; tauto).
  assert (Hd : 0 <= clamp t d <= MAX_INDEX - 1)
    by (apply clamp_range, H; cbn; tauto).
  assert (He : 0 <= clamp t e <= MAX_INDEX - 1)
    by (apply clamp_range, H; cbn; tauto).
  assert (Hf : 0 <= clamp t f <= MAX_INDEX - 1)
    by (apply clamp_range, H; cbn; tauto).
  unfold extract_index6, table_size, MAX_INDEX in *. lia.
Qed.

(** C3.  Evaluation of [extract_index] on a cell at or above [2^31]: the
    cast to [int] makes it negative, [std::min] with 23 keeps it, and the
    index of the first feature is negative, outside table 0. *)
Theorem extract_index_negative_on_corrupt_cell :
  at1 corrupt_board 0 = 2 ^ 32 - 1 /\
  clamp corrupt_board 0 = -1 /\
  extract_index6 corrupt_board 0 1 4 5 8 9 = -7962624 /\
  ~ (0 <= extract_index6 corrupt_board 0 1 4 5 8 9 < table_size 0) /\
  extract_index4 (rotate_right corrupt_board) 3 7 11 15 = -13824.
Proof.
  repeat split; try reflexivity.
  intros [H _]. apply H. reflexivity.
Qed.

(** ** Cells below [2^31]: the indices stay inside the tables *)

Lemma in_positions (i : Z) : 0 <= i < 16 <-> In i positions.
Proof. unfold positions. cbn [In]. lia. Qed.

Ltac sixteen :=
  unfold all_cells, cells, positions; cbn [map];
  unfold at1;
  repeat match goal with
  | |- context [get ?b ?r ?c] =>
      let v := eval vm_compute in (get b r c) in change (get b r c) with v
  end;
  rewrite !Forall_cons_iff.

(** A transform keeps a property that holds of every cell. *)
Lemma all_cells_transforms (P : cell -> Prop) (b : board) :
  (all_cells P (transpose b) <-> all_cells P b) /\
  (all_cells P (reflect_horizontal b) <-> all_cells P b) /\
  (all_cells P (reflect_vertical b) <-> all_cells P b) /\
  (all_cells P (rotate_right b) <-> all_cells P b) /\
  (all_cells P (rotate_left b) <-> all_cells P b) /\
  (all_cells P (reverse b) <-> all_cells P b).
Proof.
  board_cells b. repeat split; sixteen; tauto.
Qed.

Lemma all_cells_at1 (P : cell -> Prop) (b : board) (p : Z) :
  all_cells P b -> 0 <= p < 16 -> P (at1 b p).
Proof.
  unfold all_cells, cells. rewrite Forall_forall. intros H Hp.
  apply H. apply in_map. apply in_positions. exact Hp.
Qed.

(** The four entries of one orientation lie inside their tables. *)
Lemma touched_in_tables (tmp : board) :
  int_cells tmp -> Forall in_table (touched tmp).
Proof.
  intros H. unfold touched, in_table.
  assert (A : forall p, 0 <= p < 16 -> 0 <= at1 tmp p < 2 ^ 31).
  { intros p Hp. apply (all_cells_at1 _ tmp p H Hp). }
  change (table_size 1) with (table_size 0).
  change (table_size 3) with (table_size 2).
  repeat (apply Forall_cons; [cbn [fst snd]|]); [| | | |apply Forall_nil];
    first [apply extract_index6_in_range | apply extract_index4_in_range];
    intros p I; apply A; cbn [In] in I; lia.
Qed.

Lemma int_cells_rotate (b : board) :
  int_cells b -> int_cells (rotate_left b) /\ int_cells (rotate_right b).
Proof.
  intros H. destruct (all_cells_transforms (fun x => 0 <= x < 2 ^ 31) b)
    as (_ & _ & _ & RR & RL & _).
  split; [apply RL | apply RR]; exact H.
Qed.

(** For a board whose cells are below [2^31] the sixteen entries of one
    pass over the orientations lie inside their tables: no access of
    [estimate_value] or [adjust_value] leaves a table. *)
Lemma reads_in_tables (b : board) : int_cells b -> Forall in_table (reads b).
Proof.
  intros H. unfold reads.
  pose proof (proj1 (int_cells_rotate b H)) as L.
  pose proof (proj2 (int_cells_rotate b H)) as R.
  pose proof (proj1 (int_cells_rotate _ L)) as LL.
  apply Forall_app. split; [exact (touched_in_tables _ H)|].
  apply Forall_app. split; [exact (touched_in_tables _ LL)|].
  apply Forall_app. split; [exact (touched_in_tables _ L)|].
  exact (touched_in_tables _ R).
Qed.

Lemma cell_domain_int_cells (b : board) : cell_domain b -> int_cells b.
Proof.
  unfold cell_domain, int_cells, all_cells, cells.
  rewrite forallb_forall, Forall_forall. intros H x I.
  apply in_map_iff in I. destruct I as (i & <- & I).
  specialize (H i I). apply andb_true_iff in H. unfold MAX_INDEX in H. lia.
Qed.

(** ** The orientation loop and the entries it touches *)

Lemma orient_loop_unfold {A : Type} (body : A -> board -> A) (init : A)
    (b : board) :
  orient_loop body init b
  = (body (body (body (body init b) (rotate_left (rotate_left b)))
                (rotate_left b)) (rotate_right b), b).
Proof.
  unfold orient_loop, upto4. cbn [fold_left turn unturn fst snd].
  rewrite !rotate_right_left, !rotate_left_right. reflexivity.
Qed.

Lemma estimate_value_reads (w : weights) (b : board) :
  estimate_value w b = fsum (map (lookup w) (reads b)).
Proof.
  unfold estimate_value. rewrite orient_loop_unfold.
  cbn [fst]. unfold fsum, reads, touched, estimate_body, lookup.
  cbn [app map fold_left fst snd]. reflexivity.
Qed.

Lemma adjust_value_reads (w : weights) (a : float) (b : board) (t : float) :
  adjust_value w a b t = fold_left (bump (adjustment w a b t)) (reads b) w.
Proof.
  unfold adjust_value. rewrite orient_loop_unfold.
  cbn [fst]. unfold reads, touched, adjust_body, bump.
  cbn [app fold_left fst snd]. reflexivity.
Qed.

Lemma reads_length (b : board) : length (reads b) = 16%nat.
Proof. reflexivity. Qed.

Lemma bump_same (adj : float) (w : weights) (e : entry) :
  lookup (bump adj w e) e = F32.add (lookup w e) adj.
Proof.
  unfold lookup, bump, wadd. rewrite Nat.eqb_refl, Z.eqb_refl. reflexivity.
Qed.

Lemma bump_other (adj : float) (w : weights) (e e' : entry) :
  e' <> e -> lookup (bump adj w e) e' = lookup w e'.
Proof.
  intros N. unfold lookup, bump, wadd.
  destruct e as [k i], e' as [k' i']. cbn [fst snd].
  destruct (Nat.eqb_spec k' k); [|reflexivity].
  destruct (Z.eqb_spec i' i); [|reflexivity].
  subst. contradiction.
Qed.

(** After a run of [+=] over a list of entries, an entry has received the
    adjustment once per occurrence in the list. *)
Lemma bumps_lookup (adj : float) (l : list entry) :
  forall (w : weights) (e : entry),
    lookup (fold_left (bump adj) l w) e
    = Nat.iter (count_occ entry_eq_dec l e) (fun x => F32.add x adj)
               (lookup w e).
Proof.
  induction l as [|e0 l IH]; intros w e; cbn [fold_left count_occ];
    [reflexivity|].
  rewrite IH. destruct (entry_eq_dec e0 e) as [-> | N].
  - rewrite bump_same. rewrite Nat.iter_succ_r. reflexivity.
  - rewrite bump_other by congruence. reflexivity.
Qed.

(** C10.  For a board whose cells are below [2^31], where the casts and
    the [int] arithmetic of [extract_index] are exact and every index
    lies inside its table, one call of [adjust_value] touches the sixteen
    entries that [estimate_value] reads for the same board, the four
    orientations (identity, 180 degrees, 90 degrees counterclockwise, 90
    degrees clockwise) times the four tables: each entry ends with
    [alpha * (target - estimate_value(b))], computed once on the weights
    before the call, added to it once per occurrence among the sixteen;
    an entry outside them keeps its weight, and the working copy of the
    board is back at [b] when the loop ends. *)
Theorem adjust_value_frame (w : weights) (a : float) (b : board) (t : float) :
  int_cells b ->
  let adj := F32.mul a (F32.sub t (estimate_value w b)) in
  Forall in_table (reads b) /\
  reads b
  = touched b ++ touched (rotate_left (rotate_left b)) ++
    touched (rotate_left b) ++ touched (rotate_right b) /\
  length (reads b) = 16%nat /\
  estimate_value w b = fsum (map (lookup w) (reads b)) /\
  (forall e : entry,
      lookup (adjust_value w a b t) e
      = Nat.iter (count_occ entry_eq_dec (reads b) e)
                 (fun x => F32.add x adj) (lookup w e)) /\
  (forall e : entry,
      ~ In e (reads b) -> lookup (adjust_value w a b t) e = lookup w e) /\
  snd (orient_loop (adjust_body adj) w b) = b.
Proof.
  intros Hb adj.
  assert (L : forall e : entry,
             lookup (adjust_value w a b t) e
             = Nat.iter (count_occ entry_eq_dec (reads b) e)
                        (fun x => F32.add x adj) (lookup w e)).
  { intros e. rewrite adjust_value_reads. apply bumps_lookup. }
  split; [exact (reads_in_tables b Hb)|].
  split; [reflexivity|]. split; [reflexivity|].
  split; [apply estimate_value_reads|]. split; [exact L|]. split.
  - intros e N. rewrite L.
    rewrite (proj1 (count_occ_not_In entry_eq_dec (reads b) e) N).
    reflexivity.
  - rewrite orient_loop_unfold. reflexivity.
Qed.

Lemma adjust_value_frame_witness :
  int_cells board_s0 /\
  forall e : entry,
    ~ In e (reads board_s0) ->
    lookup (adjust_value zero_weights F32.one_tenth board_s0 (F32.of_int 5)) e
    = lookup zero_weights e.
Proof.
  assert (H : int_cells board_s0) by (apply cell_domain_int_cells; reflexivity).
  split; [exact H|].
  exact (proj1 (proj2 (proj2 (proj2 (proj2 (proj2
           (adjust_value_frame zero_weights F32.one_tenth board_s0
                               (F32.of_int 5) H))))))).
Defined.

(** ** Float sums over the touched entries *)

Lemma entry_eqb_eq (x y : entry) : entry_eqb x y = true <-> x = y.
Proof.
  destruct x as [k i], y as [k' i']. unfold entry_eqb. cbn [fst snd].
  rewrite andb_true_iff, Nat.eqb_eq, Z.eqb_eq. split.
  - intros [-> ->]. reflexivity.
  - intros E. injection E as -> ->. auto.
Qed.

Lemma distinctb_NoDup (l : list entry) : distinctb l = true -> NoDup l.
Proof.
  induction l as [|x l IH]; cbn [distinctb]; intros H; [constructor|].
  apply andb_true_iff in H. destruct H as [H1 H2].
  constructor; [|apply IH; exact H2].
  intros I. apply negb_true_iff in H1.
  assert (E : existsb (entry_eqb x) l = true).
  { apply existsb_exists. exists x. split; [exact I|].
    apply entry_eqb_eq. reflexivity. }
  congruence.
Qed.

Lemma fsum_zeros (l : list float) :
  Forall (fun x => x = F32.zero) l -> fsum l = F32.zero.
Proof.
  unfold fsum. induction l as [|x l IH]; intros F; [reflexivity|].
  inversion F as [|? ? -> F']; subst. cbn [fold_left].
  change (F32.add F32.zero F32.zero) with F32.zero. apply IH. exact F'.
Qed.

Lemma estimate_value_zero (w : weights) (b : board) :
  (forall e, lookup w e = F32.zero) -> estimate_value w b = F32.zero.
Proof.
  intros Z. rewrite estimate_value_reads. apply fsum_zeros.
  apply Forall_forall. intros x I. apply in_map_iff in I.
  destruct I as (e & <- & _). apply Z.
Qed.

Lemma iter_add_zero (n : nat) :
  Nat.iter n (fun x => F32.add x F32.zero) F32.zero = F32.zero.
Proof.
  induction n as [|n IH]; [reflexivity|].
  rewrite Nat.iter_succ, IH. reflexivity.
Qed.

(** On zeroed tables the anchor at target 0 changes nothing:
    [0.1f * (0 - 0)] is [0.0f]. *)
Lemma anchor_keeps_zero (w : weights) (b : board) :
  (forall e, lookup w e = F32.zero) ->
  forall e, lookup (adjust_value w F32.one_tenth b (F32.of_int 0)) e = F32.zero.
Proof.
  intros Z e. rewrite adjust_value_reads, bumps_lookup, Z.
  unfold adjustment. rewrite (estimate_value_zero w b Z).
  change (F32.mul F32.one_tenth (F32.sub (F32.of_int 0) F32.zero))
    with F32.zero.
  apply iter_add_zero.
Qed.

(** C2, as amended.  For boards [s0] and [s1] whose cells are below
    [2^31], so that every entry touched lies inside its table: from
    zeroed tables with [alpha = 0.1], after the anchor on [s1] (which
    changes nothing), one adjustment of [s0] toward the target
    [5 + value(s1) = 5], [s0] a board whose sixteen touched entries are
    pairwise different, adds [0.5] to each of the sixteen entries (four
    orientations times four tables), and the next value query on [s0]
    returns exactly [8.0]. *)
Theorem adjust_toward_five (s0 s1 : board) :
  int_cells s0 -> int_cells s1 -> distinct_slots s0 ->
  let w1 := adjust_value zero_weights F32.one_tenth s1 (F32.of_int 0) in
  let target := F32.add (F32.of_int 5) (estimate_value w1 s1) in
  Forall in_table (reads s0) /\
  Forall in_table (reads s1) /\
  target = F32.of_int 5 /\
  adjustment w1 F32.one_tenth s0 target = half /\
  length (reads s0) = 16%nat /\
  (forall e, In e (reads s0) ->
     lookup (adjust_value w1 F32.one_tenth s0 target) e = half) /\
  estimate_value (adjust_value w1 F32.one_tenth s0 target) s0 = F32.of_int 8.
Proof.
  intros H0 H1 D w1 target.
  assert (Z1 : forall e, lookup w1 e = F32.zero)
    by (apply anchor_keeps_zero; reflexivity).
  assert (T : target = F32.of_int 5).
  { unfold target. rewrite (estimate_value_zero w1 s1 Z1). reflexivity. }
  assert (A : adjustment w1 F32.one_tenth s0 target = half).
  { unfold adjustment. rewrite (estimate_value_zero w1 s0 Z1), T.
    reflexivity. }
  assert (H : forall e, In e (reads s0) ->
                lookup (adjust_value w1 F32.one_tenth s0 target) e = half).
  { intros e I. rewrite adjust_value_reads, bumps_lookup, A, Z1.
    apply distinctb_NoDup in D.
    rewrite (proj1 (NoDup_count_occ' entry_eq_dec (reads s0)) D e I).
    reflexivity. }
  split; [exact (reads_in_tables s0 H0)|].
  split; [exact (reads_in_tables s1 H1)|].
  split; [exact T|]. split; [exact A|]. split; [reflexivity|].
  split; [exact H|].
  rewrite estimate_value_reads.
  rewrite (map_ext_in _ (fun _ => half) _ H), map_const, reads_length.
  reflexivity.
Qed.

Lemma adjust_toward_five_witness :
  int_cells board_s0 /\ int_cells board_s1 /\ distinct_slots board_s0 /\
  estimate_value
    (adjust_value
       (adjust_value zero_weights F32.one_tenth board_s1 (F32.of_int 0))
       F32.one_tenth board_s0
       (F32.add (F32.of_int 5)
          (estimate_value
             (adjust_value zero_weights F32.one_tenth board_s1 (F32.of_int 0))
             board_s1)))
    board_s0
  = F32.of_int 8.
Proof.
  assert (H0 : int_cells board_s0) by (apply cell_domain_int_cells; reflexivity).
  assert (H1 : int_cells board_s1) by (apply cell_domain_int_cells; reflexivity).
  assert (D : distinct_slots board_s0) by (vm_compute; reflexivity).
  split; [exact H0|]. split; [exact H1|]. split; [exact D|].
  exact (proj2 (proj2 (proj2 (proj2 (proj2 (proj2
           (adjust_toward_five board_s0 board_s1 H0 H1 D))))))).
Defined.

(** C2 as it is worded fails: on the history [(0, s0), (5, s1)], with
    touched entries all different, [close_episode] leaves the value of
    [s0] at [0.0], which is not [16.0]. *)
Lemma close_episode_value_not_sixteen :
  distinctb (reads board_s0 ++ reads board_s1) = true /\
  estimate_value (net (close_episode episode_0_5)) board_s0 = F32.zero /\
  F32.eqb (estimate_value (net (close_episode episode_0_5)) board_s0)
          (F32.of_int 16) = false.
Proof. vm_compute. repeat split; reflexivity. Qed.

(** ** The backward pass of [close_episode] *)

(** With a two-step history the pass is the anchor on the second step
    followed by one adjustment of the first, whose target pairs the
    reward of the first step with the value of the second after-state. *)
Lemma close_episode_two_steps (w : weights) (a : float) (x y : step) :
  F32.eqb a (F32.of_int 0) = false ->
  let w1 := adjust_value w a (after y) (F32.of_int 0) in
  net (close_episode (Player w a [x; y]))
  = adjust_value w1 a (after x)
      (F32.add (F32.of_int (reward x)) (estimate_value w1 (after y))).
Proof.
  intros NZ w1. unfold close_episode. cbn [history alpha net].
  rewrite NZ. cbn [net]. reflexivity.
Qed.

(** C1.  Evaluation of the backward pass on the history
    [(0, s0), (5, s1)] with zeroed tables and [alpha = 0.1]: after the
    anchor the loop runs for [i = 0] only, and adjusts [s0] toward the
    reward of step 0 plus the value of the after-state of step 1, which
    is [0.0]; the reward of step 1 plus that value is [5.0].  The value
    of [s0] is [0.0] afterwards. *)
Theorem close_episode_target_pairs_own_reward :
  let h := history episode_0_5 in
  let w1 := adjust_value (net episode_0_5) (alpha episode_0_5)
              (after (hist_at h 1)) (F32.of_int 0) in
  net (close_episode episode_0_5)
  = adjust_value w1 (alpha episode_0_5) (after (hist_at h 0))
                 (td_target h w1 0) /\
  td_indices h = [0%nat] /\
  td_target h w1 0
  = F32.add (F32.of_int (reward (hist_at h 0)))
            (estimate_value w1 (after (hist_at h 1))) /\
  td_target h w1 0 = F32.zero /\
  F32.add (F32.of_int (reward (hist_at h 1)))
          (estimate_value w1 (after (hist_at h 1))) = F32.of_int 5 /\
  F32.eqb (td_target h w1 0) (F32.of_int 5) = false /\
  estimate_value (net (close_episode episode_0_5)) board_s0 = F32.zero.
Proof.
  intros h w1. split.
  - apply (close_episode_two_steps zero_weights F32.one_tenth
             (Step 0 board_s0) (Step 5 board_s1)).
    reflexivity.
  - vm_compute. repeat split; reflexivity.
Qed.

(** ** The value of a board and of its half turn *)

Lemma reads_half_turn (b : board) :
  reads (rotate_left (rotate_left b))
  = touched (rotate_left (rotate_left b)) ++ touched b ++
    touched (rotate_right b) ++ touched (rotate_left b).
Proof.
  unfold reads.
  rewrite rotate_left_four, rotate_left_thrice, rotate_right_after_half.
  reflexivity.
Qed.

Lemma reads_half_turn_perm (b : board) :
  Permutation (reads (rotate_left (rotate_left b))) (reads b).
Proof.
  rewrite reads_half_turn. unfold reads.
  set (i := touched b). set (h := touched (rotate_left (rotate_left b))).
  set (l := touched (rotate_left b)). set (r := touched (rotate_right b)).
  rewrite (app_assoc h i), (app_assoc i h).
  apply Permutation_app; apply Permutation_app_comm.
Qed.

Section ExactSum.

(** For an addition that is associative and commutative, which the
    rounded float addition is not, the order of a sum is irrelevant. *)
Variable A : Type.
Variable plus : A -> A -> A.
Hypothesis plus_comm : forall x y, plus x y = plus y x.
Hypothesis plus_assoc : forall x y z, plus (plus x y) z = plus x (plus y z).

Lemma sum_order_irrelevant (l l' : list A) :
  Permutation l l' -> forall z, fold_left plus l z = fold_left plus l' z.
Proof.
  induction 1 as [| x l l' _ IH | x y l | l l' l'' _ IH1 _ IH2];
    intros z; cbn [fold_left].
  - reflexivity.
  - apply IH.
  - f_equal. rewrite !plus_assoc. f_equal. apply plus_comm.
  - rewrite IH1. apply IH2.
Qed.

Lemma exact_sum_half_turn (f : entry -> A) (z : A) (b : board) :
  fold_left plus (map f (reads (rotate_left (rotate_left b)))) z
  = fold_left plus (map f (reads b)) z.
Proof.
  apply sum_order_irrelevant, Permutation_map, reads_half_turn_perm.
Qed.

End ExactSum.

(** C8, as amended.  For every board whose cells are below [2^31], so
    that every entry read lies inside its table, and every weight state,
    the value of the half-turned board is the float sum of the same
    sixteen table entries as the value of the board, taken in another
    order: the group of the half turn before the group of the board
    itself, the clockwise group before the counterclockwise one.  Summed
    with any addition that is associative and commutative, which the
    rounded float addition is not, the two agree. *)
Theorem estimate_value_half_turn (w : weights) (b : board) :
  int_cells b ->
  Forall in_table (reads b) /\
  Forall in_table (reads (rotate_left (rotate_left b))) /\
  estimate_value w b
  = fsum (map (lookup w)
            (touched b ++ touched (rotate_left (rotate_left b)) ++
             touched (rotate_left b) ++ touched (rotate_right b))) /\
  estimate_value w (rotate_left (rotate_left b))
  = fsum (map (lookup w)
            (touched (rotate_left (rotate_left b)) ++ touched b ++
             touched (rotate_right b) ++ touched (rotate_left b))) /\
  Permutation (map (lookup w) (reads (rotate_left (rotate_left b))))
              (map (lookup w) (reads b)) /\
  (forall (A : Type) (plus : A -> A -> A),
      (forall x y, plus x y = plus y x) ->
      (forall x y z, plus (plus x y) z = plus x (plus y z)) ->
      forall (f : entry -> A) (z : A),
        fold_left plus (map f (reads (rotate_left (rotate_left b)))) z
        = fold_left plus (map f (reads b)) z).
Proof.
  intros Hb.
  pose proof (proj1 (int_cells_rotate _ (proj1 (int_cells_rotate b Hb)))) as Hh.
  split; [exact (reads_in_tables b Hb)|].
  split; [exact (reads_in_tables _ Hh)|].
  split; [apply estimate_value_reads|]. split; [|split].
  - rewrite estimate_value_reads, reads_half_turn. reflexivity.
  - apply Permutation_map, reads_half_turn_perm.
  - intros A plus C As f z. apply (exact_sum_half_turn A plus C As).
Qed.

Lemma estimate_value_half_turn_witness :
  int_cells tile_at_1 /\
  Permutation
    (map (lookup skewed_weights) (reads (rotate_left (rotate_left tile_at_1))))
    (map (lookup skewed_weights) (reads tile_at_1)).
Proof.
  assert (H : int_cells tile_at_1) by (apply cell_domain_int_cells; reflexivity).
  split; [exact H|].
  exact (proj1 (proj2 (proj2 (proj2 (proj2
           (estimate_value_half_turn skewed_weights tile_at_1 H)))))).
Defined.

(** C8 as it is worded fails for float sums: with [skewed_weights] the
    board [tile_at_1] has value [(2^24 - 2^24) + 1 = 1.0] and its half
    turn has value [(2^24 + 1) - 2^24 = 0.0], the 1 being lost to
    rounding. *)
Lemma estimate_value_half_turn_differs :
  estimate_value skewed_weights tile_at_1 = F32.of_int 1 /\
  estimate_value skewed_weights (rotate_left (rotate_left tile_at_1))
  = F32.zero /\
  F32.eqb (estimate_value skewed_weights tile_at_1)
          (estimate_value skewed_weights (rotate_left (rotate_left tile_at_1)))
  = false.
Proof. vm_compute. repeat split; reflexivity. Qed.

(** ** Action selection *)

Lemma admissibleb_spec (w : weights) (before : board) (op : Z) :
  admissibleb w before op = true <-> admissible w before op.
Proof.
  unfold admissibleb, admissible.
  rewrite andb_true_iff, negb_true_iff, Z.eqb_neq. reflexivity.
Qed.

Lemma try_op_illegal (w : weights) (before : board) (bst : best) (op : Z) :
  snd (slide op before) = -1 -> try_op w before bst op = bst.
Proof.
  intros H. unfold try_op. destruct (slide op before) as [aft r].
  cbn [snd] in H. subst r. reflexivity.
Qed.

Lemma try_op_first (w : weights) (before : board) (op : Z) :
  try_op w before best_init op
  = if admissibleb w before op
    then Best op (snd (slide op before))
              (estimate_value w (fst (slide op before)))
              (fst (slide op before))
    else best_init.
Proof.
  unfold try_op, admissibleb, sentinel.
  destruct (slide op before) as [aft r]. cbn [fst snd].
  destruct (r =? -1); cbn [negb andb]; [reflexivity|].
  destruct (F32.geb _ _); reflexivity.
Qed.

Lemma try_op_chosen (w : weights) (before : board) (bst : best) (op : Z) :
  In op upto4 -> chosen before bst -> chosen before (try_op w before bst op).
Proof.
  intros I C. unfold try_op.
  destruct (slide op before) as [aft r] eqn:S.
  destruct (Z.eqb_spec r (-1)); [exact C|].
  destruct (F32.geb _ _); [|exact C].
  unfold chosen. cbn [best_op best_after best_reward]. auto.
Qed.

Lemma try_ops_chosen (w : weights) (before : board) (ops : list Z) :
  forall bst,
  (forall op, In op ops -> In op upto4) ->
  chosen before bst -> chosen before (fold_left (try_op w before) ops bst).
Proof.
  induction ops as [|op ops IH]; intros bst Hin C; cbn [fold_left]; [exact C|].
  apply IH.
  - intros o Ho. apply Hin. right. exact Ho.
  - apply try_op_chosen; [apply Hin; left; reflexivity | exact C].
Qed.

Lemma try_ops_first (w : weights) (before : board) (ops : list Z) :
  (forall op, In op ops -> In op upto4) ->
  if existsb (admissibleb w before) ops
  then chosen before (fold_left (try_op w before) ops best_init)
  else fold_left (try_op w before) ops best_init = best_init.
Proof.
  induction ops as [|op ops IH]; intros Hin; cbn [existsb fold_left];
    [reflexivity|].
  rewrite try_op_first.
  destruct (admissibleb w before op) eqn:A; cbn [orb].
  - apply try_ops_chosen; [intros o Ho; apply Hin; right; exact Ho|].
    apply admissibleb_spec in A. destruct A as [A1 A2].
    unfold chosen. cbn [best_op best_after best_reward].
    split; [apply Hin; left; reflexivity|]. split; [|exact A1].
    destruct (slide op before); reflexivity.
  - apply IH. intros o Ho. apply Hin. right. exact Ho.
Qed.

Lemma choose_spec (w : weights) (before : board) :
  if existsb (admissibleb w before) upto4
  then chosen before (choose w before)
  else choose w before = best_init.
Proof. apply (try_ops_first w before upto4). auto. Qed.

Lemma chosen_op (bst : best) (before : board) : chosen before bst -> 0 <= best_op bst <= 3.
Proof.
  intros (I & _). unfold upto4 in I. cbn [In] in I. lia.
Qed.

Lemma admissible_exists (w : weights) (before : board) :
  existsb (admissibleb w before) upto4 = true
  <-> exists op, In op upto4 /\ admissible w before op.
Proof.
  rewrite existsb_exists. split; intros (op & I & A); exists op;
    (split; [exact I | apply admissibleb_spec; exact A]).
Qed.

Lemma choose_all_illegal (w : weights) (before : board) :
  (forall op, In op upto4 -> snd (slide op before) = -1) ->
  choose w before = best_init.
Proof.
  intros H. unfold choose, upto4. cbn [fold_left].
  rewrite !try_op_illegal; [reflexivity| apply H; cbn; tauto ..].
Qed.

Lemma alternating_board_stuck (op : Z) :
  In op upto4 -> snd (slide op alternating_board) = -1.
Proof.
  unfold upto4. cbn [In].
  intros [<- | [<- | [<- | [<- | []]]]]; vm_compute; reflexivity.
Qed.

Lemma digits2_pos_bound (m : positive) : Z.pos m < 2 ^ Z.pos (digits2_pos m).
Proof.
  induction m as [m IH | m IH |]; cbn [digits2_pos].
  - rewrite Pos2Z.inj_succ, Z.pow_succ_r by lia. lia.
  - rewrite Pos2Z.inj_succ, Z.pow_succ_r by lia. lia.
  - reflexivity.
Qed.

Lemma sentinel_value : sentinel = S754_finite true 16777215 104.
Proof. reflexivity. Qed.

(** On a valid binary32 value the comparison against the initial best
    fails for NaN and for minus infinity only. *)
Lemma geb_sentinel_valid (x : float) :
  valid_binary F32.prec F32.emax x = true ->
  F32.geb x sentinel
  = match x with
    | S754_nan | S754_infinity true => false
    | _ => true
    end.
Proof.
  intros V. rewrite sentinel_value. unfold F32.geb, SFleb.
  destruct x as [s | [|] | | [|] m e]; try reflexivity.
  cbn [valid_binary] in V. unfold bounded, canonical_mantissa, fexp, emin in V.
  apply andb_true_iff in V. destruct V as [C B].
  apply Z.eqb_eq in C. apply Z.leb_le in B.
  unfold F32.prec, F32.emax in *.
  cbn [SFcompare].
  destruct (Z.compare_spec 104 e) as [E | L | G]; [|lia|reflexivity].
  subst e.
  assert (D : Z.pos (digits2_pos m) = 24) by lia.
  pose proof (digits2_pos_bound m) as P. rewrite D in P.
  change (Pos.compare_cont Eq 16777215 m) with (Pos.compare 16777215 m).
  destruct (Pos.compare_spec 16777215 m) as [E | L | G]; cbn [CompOpp];
    try reflexivity.
  change (2 ^ 24) with 16777216 in P. lia.
Qed.

(** C9, as amended.  On an input board of the cell domain, where the
    slides and the value estimates are those of the source, [take_action]
    appends a step exactly when one of the
    four ops is legal on the input board and its [value + reward]
    compares [>=] to the initial [-FLT_MAX + (-1)], which a NaN or a
    minus infinity does not (and every other valid float does, see
    [geb_sentinel_valid]); the step appended is then the reward and the
    after-state of a legal slide, and the action is that slide.
    Otherwise nothing is appended and the action is the null one.  On the
    alternating board all four slides return -1, whatever the weights,
    nothing is appended and the null action is returned. *)
Theorem take_action_appends_iff (p : player) (before : board) :
  cell_domain before ->
  let bst := choose (net p) before in
  let some_op := exists op, In op upto4 /\ admissible (net p) before op in
  (some_op ->
   take_action p before
   = (Slide (best_op bst),
      Player (net p) (alpha p)
             (history p ++ [Step (best_reward bst) (best_after bst)])) /\
   chosen before bst) /\
  (~ some_op -> take_action p before = (Null, p)) /\
  ((exists s, history (snd (take_action p before)) = history p ++ [s])
   <-> some_op) /\
  (forall op, In op upto4 -> snd (slide op alternating_board) = -1) /\
  take_action p alternating_board = (Null, p).
Proof.
  intros Hd bst some_op.
  assert (Y : some_op ->
              take_action p before
              = (Slide (best_op bst),
                 Player (net p) (alpha p)
                        (history p ++ [Step (best_reward bst) (best_after bst)]))
              /\ chosen before bst).
  { intros S. apply admissible_exists in S.
    pose proof (choose_spec (net p) before) as C. rewrite S in C.
    fold bst in C. split; [|exact C].
    pose proof (chosen_op bst before C) as R.
    unfold take_action. fold bst.
    destruct (Z.eqb_spec (best_op bst) (-1)); [lia|]. cbn [negb].
    unfold action_slide.
    destruct (Z.leb_spec 0 (best_op bst)); [|lia].
    destruct (Z.leb_spec (best_op bst) 3); [|lia].
    reflexivity. }
  assert (N : ~ some_op -> take_action p before = (Null, p)).
  { intros S.
    pose proof (choose_spec (net p) before) as C.
    destruct (existsb (admissibleb (net p) before) upto4) eqn:E.
    - apply admissible_exists in E. contradiction.
    - unfold take_action. rewrite C. reflexivity. }
  split; [exact Y|]. split; [exact N|]. split; [|split].
  - split.
    + intros (s & H).
      destruct (existsb (admissibleb (net p) before) upto4) eqn:E.
      * apply admissible_exists. exact E.
      * assert (S : ~ some_op).
        { intros S. apply admissible_exists in S. congruence. }
        rewrite (N S) in H. cbn [snd] in H.
        apply (f_equal (@length step)) in H.
        rewrite length_app in H. cbn [length] in H. lia.
    + intros S. destruct (Y S) as [-> _]. cbn [snd history]. eauto.
  - exact alternating_board_stuck.
  - unfold take_action.
    rewrite (choose_all_illegal (net p) alternating_board alternating_board_stuck).
    reflexivity.
Qed.

Lemma take_action_appends_iff_witness :
  cell_domain tile_at_5 /\
  exists s,
    history (snd (take_action (Player zero_weights F32.one_tenth []) tile_at_5))
    = [] ++ [s].
Proof.
  assert (D : cell_domain tile_at_5) by reflexivity.
  split; [exact D|].
  pose proof (take_action_appends_iff
                (Player zero_weights F32.one_tenth []) tile_at_5 D) as T.
  cbv zeta in T. destruct T as (_ & _ & W & _).
  apply W. exists 3. split.
  - right. right. right. left. reflexivity.
  - split; [vm_compute; discriminate | vm_compute; reflexivity].
Defined.

(** C9 as it is worded fails when the estimates are not comparable to
    the initial best: on a board where sliding left is legal, with every
    weight at [-FLT_MAX] (the value overflows to minus infinity) or every
    weight NaN, nothing is appended and the null action is returned. *)
Lemma take_action_skips_legal_slide :
  slide 3 pair_board
  = (mk_board (Row 2 0 0 0) empty_row empty_row empty_row, 2) /\
  estimate_value sunk_weights (fst (slide 3 pair_board))
  = S754_infinity true /\
  fst (take_action (Player sunk_weights F32.one_tenth []) pair_board) = Null /\
  history (snd (take_action (Player sunk_weights F32.one_tenth []) pair_board))
  = [] /\
  fst (take_action (Player nan_weights F32.one_tenth []) pair_board) = Null /\
  history (snd (take_action (Player nan_weights F32.one_tenth []) pair_board))
  = [].
Proof. vm_compute. repeat split; reflexivity. Qed.

(** * Further properties of the board *)

(** ** The Fibonacci table and its inverse *)

Lemma find_from_some (l : list Z) (x : Z) : forall k j,
  find_from l x k = Some j ->
  k <= j < k + Z.of_nat (length l) /\ nth (Z.to_nat (j - k)) l 0 = x.
Proof.
  induction l as [|y l IH]; intros k j H; cbn [find_from] in H; [discriminate|].
  destruct (Z.eqb_spec y x) as [-> | N].
  - injection H as <-. cbn [length]. rewrite Z.sub_diag. cbn. split; [lia | reflexivity].
  - apply IH in H. destruct H as [R E]. cbn [length]. split; [lia|].
    replace (Z.to_nat (j - k)) with (S (Z.to_nat (j - (k + 1)))) by lia.
    exact E.
Qed.

Lemma find_from_none (l : list Z) (x : Z) : forall k,
  find_from l x k = None <-> ~ In x l.
Proof.
  induction l as [|y l IH]; intros k; cbn [find_from In]; [tauto|].
  destruct (Z.eqb_spec y x) as [-> | N].
  - split; [discriminate | tauto].
  - rewrite IH. tauto.
Qed.

(** X1.  [r_fibonacci] undoes [fibonacci] on the whole table: for every
    index [i] of the 33 entries, the index found for [fibonacci i] is [i]
    (the entries are pairwise different, so the first match is the only
    one). *)
Theorem r_fibonacci_of_fibonacci (i : Z) :
  0 <= i <= 32 -> r_fibonacci (fibonacci i) = i.
Proof.
  intros H.
  assert (A : forallb (fun k => r_fibonacci (fibonacci k) =? k)
                      (map Z.of_nat (seq 0 33)) = true)
    by (vm_compute; reflexivity).
  rewrite forallb_forall in A. apply Z.eqb_eq, A.
  apply in_map_iff. exists (Z.to_nat i). split; [lia|].
  apply in_seq. lia.
Qed.

Lemma r_fibonacci_of_fibonacci_witness : r_fibonacci (fibonacci 17) = 17.
Proof. apply (r_fibonacci_of_fibonacci 17). lia. Defined.

(** X2.  [r_fibonacci] answers -1 exactly for the numbers that are not in
    the table; for a number of the table it answers an index in 0..32
    whose entry is that number.  Stored into a cell, as the board reader
    does, the answer -1 for the face 4 becomes [0xFFFFFFFF]. *)
Theorem r_fibonacci_spec (f : Z) :
  (r_fibonacci f = -1 <-> ~ In f fib) /\
  (In f fib ->
   0 <= r_fibonacci f <= 32 /\ fibonacci (r_fibonacci f) = f) /\
  to_cell (r_fibonacci 4) = 4294967295.
Proof.
  unfold r_fibonacci.
  destruct (find_from fib f 0) as [j|] eqn:E.
  - apply find_from_some in E. destruct E as [R E].
    change (Z.of_nat (length fib)) with 33 in R.
    rewrite Z.sub_0_r in E.
    assert (I : In f fib).
    { destruct (in_dec Z.eq_dec f fib) as [I|I]; [exact I|].
      rewrite <- E. apply nth_In. change (length fib) with 33%nat. lia. }
    split; [split; [lia | tauto]|]. split; [|reflexivity].
    intros _. split; [lia | exact E].
  - apply find_from_none in E. split; [tauto|]. split; [tauto | reflexivity].
Qed.

(** ** The transforms as moves of cells *)

Ltac each_cell r c Hr Hc :=
  let C := fresh "C" in
  assert (C : (r = 0 \/ r = 1 \/ r = 2 \/ r = 3) /\
              (c = 0 \/ c = 1 \/ c = 2 \/ c = 3)) by lia;
  clear Hr Hc;
  destruct C as [[-> | [-> | [-> | ->]]] [-> | [-> | [-> | ->]]]].

(** X3.  Where each transform takes its cells from: for row [r] and
    column [c] in 0..3, the cell of the transformed board at [(r, c)] is
    the cell of the board at the mirrored or turned coordinates;
    [rotate(1)], [rotate(2)] and [rotate(3)] are the quarter turn
    clockwise, the half turn and the quarter turn counterclockwise. *)
Theorem transforms_move_cells (b : board) (r c : Z) :
  0 <= r <= 3 -> 0 <= c <= 3 ->
  get (transpose b) r c = get b c r /\
  get (reflect_horizontal b) r c = get b r (3 - c) /\
  get (reflect_vertical b) r c = get b (3 - r) c /\
  get (rotate_right b) r c = get b (3 - c) r /\
  get (rotate_left b) r c = get b c (3 - r) /\
  get (reverse b) r c = get b (3 - r) (3 - c) /\
  get (rotate b 1) r c = get b (3 - c) r /\
  get (rotate b 2) r c = get b (3 - r) (3 - c) /\
  get (rotate b 3) r c = get b c (3 - r).
Proof.
  intros Hr Hc. board_cells b. each_cell r c Hr Hc; vm_compute;
    repeat split; reflexivity.
Qed.

Lemma transforms_move_cells_witness :
  get (rotate_right board_s0) 1 2 = get board_s0 1 1.
Proof.
  destruct (transforms_move_cells board_s0 1 2) as (_ & _ & _ & W & _);
    [lia | lia | exact W].
Defined.

(** X4.  The transforms compose as the symmetries of the square: four
    quarter turns are the identity, the two quarter turns undo each
    other, the transposition and the two reflections are involutions,
    [reverse] is the half turn (either way round) and an involution, and
    the transposition is a quarter turn clockwise followed by a
    horizontal reflection. *)
Theorem dihedral_laws (b : board) :
  rotate_right (rotate_right (rotate_right (rotate_right b))) = b /\
  rotate_left (rotate_right b) = b /\
  rotate_right (rotate_left b) = b /\
  transpose (transpose b) = b /\
  reflect_horizontal (reflect_horizontal b) = b /\
  reflect_vertical (reflect_vertical b) = b /\
  reverse b = rotate_right (rotate_right b) /\
  reverse b = rotate_left (rotate_left b) /\
  reverse (reverse b) = b /\
  transpose b = reflect_horizontal (rotate_right b).
Proof. board_cells b. vm_compute. repeat split; reflexivity. Qed.

Lemma rem_rem_mod (r : Z) : Z.rem (Z.rem r 4 + 4) 4 = r mod 4.
Proof. Z.to_euclidean_division_equations. lia. Qed.

Lemma rotate_mod (b : board) (r : Z) :
  rotate b r = Nat.iter (Z.to_nat (r mod 4)) rotate_right b.
Proof.
  unfold rotate. rewrite rem_rem_mod.
  assert (H : 0 <= r mod 4 < 4) by (apply Z.mod_pos_bound; lia).
  assert (C : r mod 4 = 0 \/ r mod 4 = 1 \/ r mod 4 = 2 \/ r mod 4 = 3) by lia.
  destruct C as [-> | [-> | [-> | ->]]]; cbn [Z.to_nat Pos.to_nat Pos.iter_op Nat.add Nat.iter nat_rect];
    try reflexivity; board_cells b; vm_compute; reflexivity.
Qed.

Lemma rotate_right_iter_four (n : nat) (b : board) :
  Nat.iter (4 + n) rotate_right b = Nat.iter n rotate_right b.
Proof.
  rewrite Nat.add_comm, Nat.iter_add.
  f_equal. cbn [Nat.iter nat_rect]. board_cells b. vm_compute. reflexivity.
Qed.

(** X5.  [rotate(r)] depends on [r] modulo 4 only, for negative [r] as
    well: rotations add up, [rotate(r + 4)] is [rotate(r)], [rotate(0)]
    is the identity, [rotate(-1)] is the quarter turn counterclockwise,
    and [rotate(-r)] undoes [rotate(r)]. *)
Theorem rotate_compose (b : board) (r s : Z) :
  rotate (rotate b s) r = rotate b (r + s) /\
  rotate b (r + 4) = rotate b r /\
  rotate b 0 = b /\
  rotate b (-1) = rotate_left b /\
  rotate (rotate b r) (- r) = b.
Proof.
  assert (C : forall r s, rotate (rotate b s) r = rotate b (r + s)).
  { intros r' s'. rewrite !rotate_mod, <- Nat.iter_add.
    assert (Hr : 0 <= r' mod 4 < 4) by (apply Z.mod_pos_bound; lia).
    assert (Hs : 0 <= s' mod 4 < 4) by (apply Z.mod_pos_bound; lia).
    assert (E : (r' + s') mod 4 = r' mod 4 + s' mod 4 \/
                (r' + s') mod 4 + 4 = r' mod 4 + s' mod 4)
      by (Z.to_euclidean_division_equations; lia).
    assert (Hz : 0 <= (r' + s') mod 4 < 4) by (apply Z.mod_pos_bound; lia).
    revert Hr Hs Hz E.
    generalize (r' mod 4) as x, (s' mod 4) as y, ((r' + s') mod 4) as z.
    intros x y z Hr Hs Hz [E | E].
    - f_equal. lia.
    - replace (Z.to_nat x + Z.to_nat y)%nat with (4 + Z.to_nat z)%nat by lia.
      apply rotate_right_iter_four. }
  split; [apply C|]. split.
  - rewrite !rotate_mod. f_equal. f_equal.
    Z.to_euclidean_division_equations. lia.
  - split; [reflexivity|]. split; [reflexivity|].
    rewrite C. replace (- r + r) with 0 by lia. reflexivity.
Qed.

(** ** Counting cells *)

Lemma if_count (e : bool) (x : Z) :
  (if e then x + 1 else x) = x + (if e then 1 else 0).
Proof. destruct e; lia. Qed.

(** [num_empty] as a sum over the sixteen cells. *)
Lemma num_empty_sum (b : board) :
  num_empty b = fold_right Z.add 0 (map emptyZ (cells b)).
Proof.
  board_cells b. unfold num_empty, upto4, cells, positions, emptyZ.
  cbn [fold_left map fold_right].
  change (at1 ?b 0) with (get b 0 0).
  unfold at1.
  repeat match goal with
  | |- context [get ?b ?r ?c] =>
      let v := eval vm_compute in (get b r c) in change (get b r c) with v
  end.
  rewrite !if_count. lia.
Qed.

Lemma num_empty_range (b : board) : 0 <= num_empty b <= 16.
Proof.
  rewrite num_empty_sum.
  assert (L : Z.of_nat (length (cells b)) = 16) by reflexivity.
  rewrite <- L. generalize (cells b) as l.
  induction l as [|x l IH]; cbn [map fold_right length]; [lia|].
  assert (0 <= emptyZ x <= 1) by (unfold emptyZ; destruct (_ =? 0); lia).
  lia.
Qed.

Ltac each_position H :=
  unfold positions in H; cbn [In] in H;
  repeat (destruct H as [<- | H]); [.. | contradiction].

(** The write of [place], read back through the 1-d form. *)
Lemma at1_set (b : board) (pos i : Z) (v : cell) :
  0 <= pos < 16 -> 0 <= i < 16 ->
  at1 (set b (pos / 4) (pos mod 4) v) i = if i =? pos then v else at1 b i.
Proof.
  intros Hp Hi. apply in_positions in Hp. apply in_positions in Hi.
  board_cells b.
  each_position Hp; each_position Hi; vm_compute; reflexivity.
Qed.

Lemma cells_set (b : board) (pos : Z) (v : cell) :
  0 <= pos < 16 ->
  cells (set b (pos / 4) (pos mod 4) v)
  = map (fun i => if i =? pos then v else at1 b i) positions.
Proof.
  intros H. unfold cells. apply map_ext_in. intros i Hi.
  apply at1_set; [exact H | apply in_positions; exact Hi].
Qed.

Lemma sum_replace (f : Z -> Z) (g : Z -> Z) (pos : Z) (l : list Z) :
  NoDup l -> In pos l ->
  (forall i, i <> pos -> g i = f i) ->
  fold_right Z.add 0 (map g l) = fold_right Z.add 0 (map f l) - f pos + g pos.
Proof.
  intros ND I E. induction l as [|x l IH]; [destruct I|].
  inversion ND as [|? ? NI ND']; subst. cbn [map fold_right].
  destruct (Z.eq_dec x pos) as [-> | N].
  - assert (M : map g l = map f l).
    { apply map_ext_in. intros i Hi. apply E. intros ->. contradiction. }
    rewrite M. lia.
  - destruct I as [I | I]; [contradiction|].
    rewrite (IH ND' I), (E x N). lia.
Qed.

Lemma positions_NoDup : NoDup positions.
Proof.
  unfold positions. repeat (constructor; [cbn [In]; lia|]). constructor.
Qed.

Lemma cells_all (P : cell -> Prop) (b : board) :
  all_cells P b <->
  (forall r c, 0 <= r <= 3 -> 0 <= c <= 3 -> P (get b r c)).
Proof.
  unfold all_cells. rewrite Forall_forall. unfold cells. split.
  - intros H r c Hr Hc.
    assert (E : get b r c = at1 b (4 * r + c)).
    { unfold at1. f_equal; Z.to_euclidean_division_equations; lia. }
    rewrite E. apply H. apply in_map. apply in_positions. lia.
  - intros H x I. apply in_map_iff in I. destruct I as (i & <- & I).
    apply in_positions in I. unfold at1.
    apply H; Z.to_euclidean_division_equations; lia.
Qed.

Lemma wrap_add (x y : Z) :
  to_int (to_cell (to_int (to_cell x) + y)) = to_int (to_cell (x + y)).
Proof.
  f_equal. unfold to_cell, to_int.
  destruct (Z.ltb_spec (x mod 2 ^ 32) (2 ^ 31)).
  - rewrite Z.add_mod_idemp_l by lia. reflexivity.
  - replace (x mod 2 ^ 32 - 2 ^ 32 + y) with (x mod 2 ^ 32 + y + (-1) * 2 ^ 32) by lia.
    rewrite Z.mod_add by lia. rewrite Z.add_mod_idemp_l by lia. reflexivity.
Qed.

(** [corner_sum] is the 32-bit sum of the four corners, read as an [int]. *)
Lemma corner_sum_wrap (b : board) :
  corner_sum b
  = to_int (to_cell (get b 0 0 + get b 0 3 + get b 3 0 + get b 3 3)).
Proof.
  unfold corner_sum. cbn [fold_left].
  rewrite (wrap_add (0 + get b 0 0)).
  rewrite (wrap_add (0 + get b 0 0 + get b 0 3)).
  rewrite (wrap_add (0 + get b 0 0 + get b 0 3 + get b 3 0)).
  apply f_equal. apply f_equal. lia.
Qed.

Ltac aggregates :=
  rewrite ?num_empty_sum, ?corner_sum_wrap;
  unfold cells, positions; cbn [map fold_right]; unfold at1;
  repeat match goal with
  | |- context [get ?b ?r ?c] =>
      let v := eval vm_compute in (get b r c) in change (get b r c) with v
  end.

Lemma aggregates_transforms (b : board) :
  (num_empty (transpose b) = num_empty b /\
   corner_sum (transpose b) = corner_sum b) /\
  (num_empty (reflect_horizontal b) = num_empty b /\
   corner_sum (reflect_horizontal b) = corner_sum b) /\
  (num_empty (reflect_vertical b) = num_empty b /\
   corner_sum (reflect_vertical b) = corner_sum b) /\
  (num_empty (rotate_right b) = num_empty b /\
   corner_sum (rotate_right b) = corner_sum b) /\
  (num_empty (rotate_left b) = num_empty b /\
   corner_sum (rotate_left b) = corner_sum b) /\
  (num_empty (reverse b) = num_empty b /\
   corner_sum (reverse b) = corner_sum b).
Proof.
  board_cells b.
  repeat split; aggregates; first [lia | apply f_equal; apply f_equal; lia].
Qed.

Ltac split_at a r :=
  match r with
  | a :: ?t => constr:((@nil Z, t))
  | ?h :: ?t =>
      let p := split_at a t in
      match p with (?l1, ?l2) => constr:((h :: l1, l2)) end
  end.

Ltac permuted :=
  repeat match goal with
  | |- Permutation [] [] => apply perm_nil
  | |- Permutation (?a :: ?l) ?r =>
      let p := split_at a r in
      match p with
      | (?l1, ?l2) =>
          change r with (l1 ++ a :: l2); apply Permutation_cons_app; cbn [app]
      end
  end.

(** Each transform lists the sixteen cells in another order. *)
Lemma cells_permuted (b : board) :
  Permutation (cells (transpose b)) (cells b) /\
  Permutation (cells (reflect_horizontal b)) (cells b) /\
  Permutation (cells (reflect_vertical b)) (cells b) /\
  Permutation (cells (rotate_right b)) (cells b) /\
  Permutation (cells (rotate_left b)) (cells b) /\
  Permutation (cells (reverse b)) (cells b).
Proof.
  board_cells b.
  repeat split;
    match goal with
    | |- Permutation ?x ?y =>
        let x' := eval vm_compute in x in
        let y' := eval vm_compute in y in
        change (Permutation x' y')
    end; permuted.
Qed.

(** X6.  A transform only moves cells: the sixteen cells of the
    transformed board are a permutation of the sixteen cells of the
    board, so [num_empty] is unchanged; the corners go to corners, so
    [corner_sum] is unchanged as well. *)
Theorem transforms_keep_cells (b : board) :
  (Permutation (cells (transpose b)) (cells b) /\
   num_empty (transpose b) = num_empty b /\
   corner_sum (transpose b) = corner_sum b) /\
  (Permutation (cells (reflect_horizontal b)) (cells b) /\
   num_empty (reflect_horizontal b) = num_empty b /\
   corner_sum (reflect_horizontal b) = corner_sum b) /\
  (Permutation (cells (reflect_vertical b)) (cells b) /\
   num_empty (reflect_vertical b) = num_empty b /\
   corner_sum (reflect_vertical b) = corner_sum b) /\
  (Permutation (cells (rotate_right b)) (cells b) /\
   num_empty (rotate_right b) = num_empty b /\
   corner_sum (rotate_right b) = corner_sum b) /\
  (Permutation (cells (rotate_left b)) (cells b) /\
   num_empty (rotate_left b) = num_empty b /\
   corner_sum (rotate_left b) = corner_sum b) /\
  (Permutation (cells (reverse b)) (cells b) /\
   num_empty (reverse b) = num_empty b /\
   corner_sum (reverse b) = corner_sum b).
Proof.
  destruct (cells_permuted b) as (P1 & P2 & P3 & P4 & P5 & P6).
  destruct (aggregates_transforms b)
    as ((A1 & B1) & (A2 & B2) & (A3 & B3) & (A4 & B4) & (A5 & B5) & (A6 & B6)).
  split; [split; [exact P1 | split; [exact A1 | exact B1]]|].
  split; [split; [exact P2 | split; [exact A2 | exact B2]]|].
  split; [split; [exact P3 | split; [exact A3 | exact B3]]|].
  split; [split; [exact P4 | split; [exact A4 | exact B4]]|].
  split; [split; [exact P5 | split; [exact A5 | exact B5]]|].
  split; [exact P6 | split; [exact A6 | exact B6]].
Qed.

(** ** Placing a tile *)

Lemma place_valid (b : board) (pos : Z) (t : cell) :
  0 <= pos < 16 -> t = 1 \/ t = 2 ->
  place b pos t = (set b (pos / 4) (pos mod 4) t, 0).
Proof.
  intros H T. unfold place. destruct (Z.leb_spec 16 pos); [lia|].
  destruct T as [-> | ->]; reflexivity.
Qed.

Lemma num_empty_set (b : board) (pos : Z) (t : cell) :
  0 <= pos < 16 ->
  num_empty (set b (pos / 4) (pos mod 4) t)
  = num_empty b - emptyZ (at1 b pos) + emptyZ t.
Proof.
  intros H. rewrite !num_empty_sum, cells_set by exact H. unfold cells.
  rewrite !map_map.
  rewrite (sum_replace (fun i => emptyZ (at1 b i))
             (fun i => emptyZ (if i =? pos then t else at1 b i)) pos).
  - rewrite Z.eqb_refl. reflexivity.
  - apply positions_NoDup.
  - apply in_positions. exact H.
  - intros i Hi. destruct (Z.eqb_spec i pos); [contradiction | reflexivity].
Qed.

(** X7.  [place] refuses a position from 16 on and a tile other than 1
    and 2: it returns -1 and leaves the board as it was.  Otherwise it
    returns 0, the cell at [pos] holds the tile, every other cell and
    the attribute are unchanged; a tile already there is overwritten. *)
Theorem place_frame (b : board) (pos : Z) (t : cell) :
  0 <= pos ->
  (16 <= pos \/ (t <> 1 /\ t <> 2) -> place b pos t = (b, -1)) /\
  (pos < 16 -> t = 1 \/ t = 2 ->
   snd (place b pos t) = 0 /\
   at1 (fst (place b pos t)) pos = t /\
   (forall i, 0 <= i < 16 -> i <> pos ->
              at1 (fst (place b pos t)) i = at1 b i) /\
   attr (fst (place b pos t)) = attr b).
Proof.
  intros H0. split.
  - unfold place. intros [H | [H1 H2]].
    + destruct (Z.leb_spec 16 pos); [reflexivity | lia].
    + destruct (16 <=? pos); [reflexivity|].
      destruct (Z.eqb_spec t 1); [contradiction|].
      destruct (Z.eqb_spec t 2); [contradiction|]. reflexivity.
  - intros H T. rewrite (place_valid b pos t) by (first [lia | exact T]).
    cbn [fst snd]. split; [reflexivity|]. split.
    + rewrite at1_set by lia. rewrite Z.eqb_refl. reflexivity.
    + split; [|reflexivity].
      intros i Hi N. rewrite at1_set by lia.
      destruct (Z.eqb_spec i pos); [contradiction | reflexivity].
Qed.

Lemma place_frame_witness : at1 (fst (place empty_board 5 2)) 5 = 2.
Proof.
  destruct (place_frame empty_board 5 2 ltac:(lia)) as [_ W].
  destruct (W ltac:(lia) (or_intror eq_refl)) as (_ & E & _). exact E.
Defined.

(** X8.  A valid [place] lowers [num_empty] by one when the cell was
    empty and leaves it unchanged when it held a tile, and it keeps the
    board inside the cell domain. *)
Theorem place_num_empty (b : board) (pos : Z) (t : cell) :
  0 <= pos < 16 -> t = 1 \/ t = 2 ->
  num_empty (fst (place b pos t)) = num_empty b - emptyZ (at1 b pos) /\
  (at1 b pos = 0 -> num_empty (fst (place b pos t)) = num_empty b - 1) /\
  (cell_domain b -> cell_domain (fst (place b pos t))).
Proof.
  intros H T. rewrite (place_valid b pos t H T). cbn [fst].
  assert (N : num_empty (set b (pos / 4) (pos mod 4) t)
              = num_empty b - emptyZ (at1 b pos)).
  { rewrite num_empty_set by exact H.
    assert (emptyZ t = 0) by (destruct T as [-> | ->]; reflexivity). lia. }
  split; [exact N|]. split.
  - intros Z0. rewrite N, Z0. reflexivity.
  - unfold cell_domain. rewrite !forallb_forall. intros D i Hi.
    rewrite at1_set by (first [assumption | apply in_positions; assumption]).
    destruct (Z.eqb_spec i pos); [|apply D; exact Hi].
    destruct T as [-> | ->]; reflexivity.
Qed.

Lemma place_num_empty_witness :
  num_empty (fst (place empty_board 5 2)) = num_empty empty_board - 1.
Proof.
  destruct (place_num_empty empty_board 5 2 ltac:(lia) (or_intror eq_refl))
    as (_ & W & _).
  apply W. reflexivity.
Defined.

(** ** The row scan: what a slide keeps *)

Lemma row_get_set (r : row) (i j : Z) (v : cell) :
  0 <= i <= 3 ->
  row_get (row_set r i v) j = if j =? i then v else row_get r j.
Proof.
  intros H. assert (C : i = 0 \/ i = 1 \/ i = 2 \/ i = 3) by lia.
  destruct r as [a b c d].
  destruct C as [-> | [-> | [-> | ->]]];
    destruct j as [|[[|[]|]|[]|]|]; reflexivity.
Qed.

Lemma row_tiles_set (r : row) (i : Z) (v : cell) :
  0 <= i <= 3 ->
  row_tiles (row_set r i v) = row_tiles r - nz (row_get r i) + nz v.
Proof.
  intros H. assert (C : i = 0 \/ i = 1 \/ i = 2 \/ i = 3) by lia.
  destruct r as [a b c d].
  destruct C as [-> | [-> | [-> | ->]]]; unfold row_tiles;
    cbn [row_set row_get c0 c1 c2 c3]; lia.
Qed.

Lemma nz_cases (x : Z) : (x = 0 /\ nz x = 0) \/ (x <> 0 /\ nz x = 1).
Proof. unfold nz. destruct (Z.eqb_spec x 0); [left | right]; auto. Qed.

Lemma fibonacci_merge (k : Z) :
  2 <= k <= MAX_INDEX -> 2 <= fibonacci k <= 75025.
Proof.
  unfold MAX_INDEX. intros H.
  assert (A : forallb (fun k => (2 <=? fibonacci k) && (fibonacci k <=? 75025))
                      (map Z.of_nat (seq 2 23)) = true)
    by (vm_compute; reflexivity).
  rewrite forallb_forall in A.
  assert (B : (2 <=? fibonacci k) && (fibonacci k <=? 75025) = true);
    [|apply andb_true_iff in B; lia].
  apply A.
  apply in_map_iff. exists (Z.to_nat k). split; [lia|]. apply in_seq. lia.
Qed.

Ltac cell_goal c H1 H2 H3 :=
  let j := fresh "j" in
  let Hj := fresh "Hj" in
  intros j Hj; rewrite ?row_get_set by lia;
  repeat match goal with
  | |- context [?a =? ?b] => destruct (Z.eqb_spec a b)
  end;
  try lia;
  destruct (Z.eq_dec j c) as [-> | ?];
  try lia;
  first [ pose proof (H1 j ltac:(lia)); lia
        | pose proof (H2 j ltac:(lia)); lia
        | pose proof (H3 j ltac:(lia)); lia ].

Ltac inv_goals c Hu Hz Hw :=
  unfold scan_inv, MAX_INDEX; cbn [s_row s_top s_hold s_score];
  try change (nz 0) with 0;
  split; [lia|]; split; [lia|]; split; [lia|];
  split; [cell_goal c Hu Hz Hw|]; split; cell_goal c Hu Hz Hw.

(** One iteration of the scan keeps the invariant, and either keeps the
    number of tiles and the score, or merges: one tile less, and a table
    entry of index 2..[MAX_INDEX] added to the score. *)
Lemma scan_cell_inv (c : Z) (st : scan) :
  0 <= c <= 3 -> scan_inv c st ->
  scan_inv (c + 1) (scan_cell st c) /\
  ((row_tiles (s_row (scan_cell st c)) + nz (s_hold (scan_cell st c))
    = row_tiles (s_row st) + nz (s_hold st) /\
    s_score (scan_cell st c) = s_score st) \/
   (row_tiles (s_row (scan_cell st c)) + nz (s_hold (scan_cell st c)) + 1
    = row_tiles (s_row st) + nz (s_hold st) /\
    s_score st + 2 <= s_score (scan_cell st c) <= s_score st + 75025)).
Proof.
  intros Hc (T0 & T1 & Hh & Hu & Hz & Hw).
  destruct st as [rw top hold score]. cbn [s_row s_top s_hold s_score] in *.
  pose proof (Hu c ltac:(lia)) as Hcell.
  assert (Hnz : 0 <= nz hold <= 1)
    by (destruct (nz_cases hold) as [[? ?] | [? ?]]; lia).
  unfold MAX_INDEX in *.
  unfold scan_cell. cbn [s_row s_top s_hold s_score].
  rewrite to_int_small by lia.
  destruct (Z.eqb_spec (row_get rw c) 0) as [E0 | N0].
  { split; [|left; split; reflexivity].
    inv_goals c Hu Hz Hw. }
  assert (Ncell : nz (row_get rw c) = 1)
    by (destruct (nz_cases (row_get rw c)) as [[? ?] | [? ?]];
        [contradiction | assumption]).
  destruct (nz_cases hold) as [[H0 Hn] | [H0 Hn]].
  - subst hold. cbn [Z.eqb negb s_row s_top s_hold s_score].
    split.
    + inv_goals c Hu Hz Hw.
    + left. rewrite row_tiles_set by lia. split; [|reflexivity].
      change (nz 0) with 0. lia.
  - destruct (Z.eqb_spec hold 0); [contradiction|]. cbn [negb].
    assert (Ztop : row_get (row_set rw c 0) top = 0).
    { rewrite row_get_set by lia.
      destruct (Z.eqb_spec top c); [reflexivity | apply Hz; lia]. }
    destruct ((Z.abs (row_get rw c - hold) =? 1)
              || ((row_get rw c =? 1) && (hold =? 1))).
    + cbn [s_row s_top s_hold s_score].
      rewrite to_cell_small by lia.
      split.
      * change (nz 0) with 0. inv_goals c Hu Hz Hw.
      * right. rewrite !row_tiles_set by lia. rewrite Ztop.
        change (nz 0) with 0.
        assert (nz (Z.max (row_get rw c) hold + 1) = 1)
          by (destruct (nz_cases (Z.max (row_get rw c) hold + 1))
                as [[? ?] | [? ?]]; [lia | assumption]).
        pose proof (fibonacci_merge (Z.max (row_get rw c) hold + 1)
                      ltac:(unfold MAX_INDEX; lia)).
        lia.
    + cbn [s_row s_top s_hold s_score].
      rewrite to_cell_small by lia.
      split.
      * inv_goals c Hu Hz Hw.
      * left. rewrite !row_tiles_set by lia. rewrite Ztop.
        change (nz 0) with 0. split; [lia | reflexivity].
Qed.

Lemma merged_step (c : Z) (st : scan) :
  0 <= c <= 3 -> scan_inv c st ->
  scan_inv (c + 1) (scan_cell st c) /\
  exists m, merged m st (scan_cell st c).
Proof.
  intros Hc I. destruct (scan_cell_inv c st Hc I) as [I' [[Q S] | [Q S]]].
  - split; [exact I'|]. exists 0. unfold merged. repeat split; lia.
  - split; [exact I'|]. exists 1. unfold merged. repeat split; lia.
Qed.

Lemma merged_trans (m1 m2 : Z) (a b c : scan) :
  merged m1 a b -> merged m2 b c -> merged (m1 + m2) a c.
Proof.
  unfold merged. intros (A1 & A2 & A3 & A4) (B1 & B2 & B3 & B4).
  split; [lia|]. split; [lia|]. split; [lia|].
  intros E. assert (m1 = 0) by lia. assert (m2 = 0) by lia.
  rewrite B4, A4 by assumption. reflexivity.
Qed.

Lemma scan_row_inv (rw : row) (score : Z) :
  row_domain rw ->
  let st := fold_left scan_cell upto4 (Scan rw 0 0 score) in
  scan_inv 4 st /\ exists m, merged m (Scan rw 0 0 score) st.
Proof.
  intros D. unfold upto4. cbn [fold_left].
  assert (I0 : scan_inv 0 (Scan rw 0 0 score)).
  { unfold scan_inv. cbn [s_row s_top s_hold s_score]. change (nz 0) with 0.
    split; [lia|]. split; [lia|]. split; [unfold MAX_INDEX; lia|].
    split; [intros j Hj; apply D; lia|]. split; intros j Hj; lia. }
  destruct (merged_step 0 _ ltac:(lia) I0) as [I1 [m1 M1]].
  destruct (merged_step 1 _ ltac:(lia) I1) as [I2 [m2 M2]].
  destruct (merged_step 2 _ ltac:(lia) I2) as [I3 [m3 M3]].
  destruct (merged_step 3 _ ltac:(lia) I3) as [I4 [m4 M4]].
  split; [exact I4|].
  exists (m1 + m2 + m3 + m4).
  eapply merged_trans; [|exact M4].
  eapply merged_trans; [|exact M3].
  eapply merged_trans; [exact M1 | exact M2].
Qed.

(** The scan of a row of the cell domain: the cells it leaves, how they
    are packed, and the merges it made. *)
Lemma slide_row_domain (rw : row) (score : Z) :
  row_domain rw ->
  (forall j, 0 <= j <= 3 -> 0 <= row_get (fst (slide_row rw score)) j <= MAX_INDEX) /\
  (exists k, 0 <= k <= 4 /\
     (forall j, 0 <= j < k -> 0 < row_get (fst (slide_row rw score)) j) /\
     (forall j, k <= j <= 3 -> row_get (fst (slide_row rw score)) j = 0)) /\
  (exists m, 0 <= m /\
     row_tiles (fst (slide_row rw score)) + m = row_tiles rw /\
     score + 2 * m <= snd (slide_row rw score) <= score + 75025 * m /\
     (m = 0 -> snd (slide_row rw score) = score)).
Proof.
  intros D. destruct (scan_row_inv rw score D) as [I [m M]].
  unfold slide_row. cbn [fst snd].
  revert I M. generalize (fold_left scan_cell upto4 (Scan rw 0 0 score)) as st.
  intros [r top hold sc] (T0 & T1 & Hh & Hu & Hz & Hw) (M0 & M1 & M2 & M3).
  cbn [s_row s_top s_hold s_score] in *. unfold MAX_INDEX in *.
  destruct (nz_cases hold) as [[H0 Hn] | [H0 Hn]].
  - subst hold. cbn [Z.eqb negb]. split; [|split].
    + intros j Hj. destruct (Z_lt_le_dec j top).
      * pose proof (Hw j ltac:(lia)). lia.
      * pose proof (Hz j ltac:(lia)). lia.
    + exists top. split; [lia|]. split.
      * intros j Hj. apply Hw. lia.
      * intros j Hj. apply Hz. lia.
    + exists m. split; [lia|]. split; [lia|]. split; [lia | exact M3].
  - destruct (Z.eqb_spec hold 0); [contradiction|]. cbn [negb].
    rewrite to_cell_small by lia.
    assert (Ztop : row_get r top = 0) by (apply Hz; lia).
    split; [|split].
    + intros j Hj. rewrite row_get_set by lia.
      destruct (Z.eqb_spec j top); [lia|].
      destruct (Z_lt_le_dec j top).
      * pose proof (Hw j ltac:(lia)). lia.
      * pose proof (Hz j ltac:(lia)). lia.
    + exists (top + 1). split; [lia|]. split.
      * intros j Hj. rewrite row_get_set by lia.
        destruct (Z.eqb_spec j top); [lia|]. apply Hw. lia.
      * intros j Hj. rewrite row_get_set by lia.
        destruct (Z.eqb_spec j top); [lia|]. apply Hz. lia.
    + exists m. rewrite row_tiles_set by lia. rewrite Ztop.
      change (nz 0) with 0 in *.
      split; [lia|]. split; [lia|]. split; [lia | exact M3].
Qed.

Lemma cell_domain_all (b : board) : cell_domain b <-> all_cells in_domain b.
Proof.
  unfold cell_domain, all_cells, cells, in_domain.
  rewrite forallb_forall, Forall_forall. split.
  - intros H x I. apply in_map_iff in I. destruct I as (i & <- & I).
    specialize (H i I). apply andb_true_iff in H. lia.
  - intros H i I. specialize (H (at1 b i) (in_map _ _ _ I)).
    apply andb_true_iff. lia.
Qed.

Lemma all_cells_rows (P : cell -> Prop) (b : board) :
  all_cells P b <->
  (forall r j, 0 <= r <= 3 -> 0 <= j <= 3 ->
               P (row_get (grid_get (tile b) r) j)).
Proof. apply cells_all. Qed.

Lemma all_cells_weaken (P Q : cell -> Prop) (b : board) :
  (forall x, P x -> Q x) -> all_cells P b -> all_cells Q b.
Proof. intros H. unfold all_cells. apply Forall_impl. exact H. Qed.

(** The empty cells are the cells that hold no tile. *)
Lemma num_empty_tiles (b : board) :
  all_cells (fun x => 0 <= x < 2 ^ 31) b -> num_empty b = 16 - board_tiles b.
Proof.
  intros H. rewrite num_empty_sum.
  assert (E : forall x, 0 <= x < 2 ^ 31 -> emptyZ x = 1 - nz x).
  { intros x Hx. unfold emptyZ, nz. rewrite to_int_small by exact Hx.
    destruct (x =? 0); reflexivity. }
  unfold all_cells in H. revert H. unfold board_tiles, row_tiles.
  destruct b as [[[x00 x01 x02 x03] [x10 x11 x12 x13]
                  [x20 x21 x22 x23] [x30 x31 x32 x33]] at0].
  unfold cells, positions. cbn [map fold_right tile g0 g1 g2 g3].
  unfold at1.
  repeat match goal with
  | |- context [get ?b ?r ?c] =>
      let v := eval vm_compute in (get b r c) in change (get b r c) with v
  end.
  rewrite !Forall_cons_iff. cbn [c0 c1 c2 c3].
  intros H. decompose [and] H.
  rewrite !E by (split; assumption). lia.
Qed.

(** What [slide_rows] does, row by row. *)
Lemma slide_rows_law (b : board) :
  cell_domain b ->
  all_cells up_to_max (fst (slide_rows b)) /\
  (forall r, 0 <= r <= 3 -> packed_left (grid_get (tile (fst (slide_rows b))) r)) /\
  exists m, 0 <= m /\
    board_tiles (fst (slide_rows b)) + m = board_tiles b /\
    2 * m <= snd (slide_rows b) <= 75025 * m /\
    (m = 0 -> snd (slide_rows b) = 0).
Proof.
  intros D. apply cell_domain_all in D.
  assert (R : forall r, 0 <= r <= 3 -> row_domain (grid_get (tile b) r)).
  { intros r Hr j Hj. apply (proj1 (all_cells_rows in_domain b) D r j Hr Hj). }
  pose proof (R 0 ltac:(lia)) as R0. pose proof (R 1 ltac:(lia)) as R1.
  pose proof (R 2 ltac:(lia)) as R2. pose proof (R 3 ltac:(lia)) as R3.
  cbn [grid_get] in R0, R1, R2, R3.
  rewrite slide_rows_by_row. cbn [fst snd]. unfold row_rewards.
  destruct (slide_row_domain _ 0 R0) as (B0 & P0 & m0 & M0 & T0 & S0 & Z0).
  destruct (slide_row_domain _ 0 R1) as (B1 & P1 & m1 & M1 & T1 & S1 & Z1).
  destruct (slide_row_domain _ 0 R2) as (B2 & P2 & m2 & M2 & T2 & S2 & Z2).
  destruct (slide_row_domain _ 0 R3) as (B3 & P3 & m3 & M3 & T3 & S3 & Z3).
  revert B0 P0 T0 S0 Z0 B1 P1 T1 S1 Z1 B2 P2 T2 S2 Z2 B3 P3 T3 S3 Z3.
  generalize (slide_row (g0 (tile b)) 0) as x0, (slide_row (g1 (tile b)) 0) as x1,
             (slide_row (g2 (tile b)) 0) as x2, (slide_row (g3 (tile b)) 0) as x3.
  intros [y0 s0] [y1 s1] [y2 s2] [y3 s3]. cbn [fst snd]. intros.
  split; [|split].
  - apply all_cells_rows. cbn [tile]. intros r j Hr Hj.
    assert (C : r = 0 \/ r = 1 \/ r = 2 \/ r = 3) by lia.
    destruct C as [-> | [-> | [-> | ->]]]; cbn [grid_get g0 g1 g2 g3];
      unfold up_to_max; auto.
  - intros r Hr. cbn [tile].
    assert (C : r = 0 \/ r = 1 \/ r = 2 \/ r = 3) by lia.
    destruct C as [-> | [-> | [-> | ->]]]; cbn [grid_get g0 g1 g2 g3];
      assumption.
  - exists (m0 + m1 + m2 + m3). unfold board_tiles. cbn [tile g0 g1 g2 g3].
    split; [lia|]. split; [lia|]. split; [lia|].
    intros E. rewrite Z0, Z1, Z2, Z3 by lia. reflexivity.
Qed.

Lemma all_cells_toward_left (P : cell -> Prop) (d : Z) (b : board) :
  all_cells P (toward_left d b) <-> all_cells P b.
Proof.
  destruct d as [|[[|[]|]|[]|]|]; cbn [toward_left]; try tauto.
  - rewrite (proj1 (proj2 (all_cells_transforms P _))).
    apply (all_cells_transforms P b).
  - apply (all_cells_transforms P b).
  - apply (all_cells_transforms P b).
Qed.

Lemma all_cells_back_from_left (P : cell -> Prop) (d : Z) (b : board) :
  all_cells P (back_from_left d b) <-> all_cells P b.
Proof.
  destruct d as [|[[|[]|]|[]|]|]; cbn [back_from_left]; try tauto.
  - rewrite (proj1 (proj2 (proj2 (proj2 (proj2 (all_cells_transforms P _)))))).
    apply (all_cells_transforms P b).
  - apply (all_cells_transforms P b).
  - apply (all_cells_transforms P b).
Qed.

Lemma num_empty_toward_left (d : Z) (b : board) :
  num_empty (toward_left d b) = num_empty b.
Proof.
  destruct d as [|[[|[]|]|[]|]|]; cbn [toward_left]; try reflexivity.
  - rewrite (proj1 (proj1 (proj2 (aggregates_transforms _)))).
    apply (aggregates_transforms b).
  - apply (aggregates_transforms b).
  - apply (aggregates_transforms b).
Qed.

Lemma num_empty_back_from_left (d : Z) (b : board) :
  num_empty (back_from_left d b) = num_empty b.
Proof.
  destruct d as [|[[|[]|]|[]|]|]; cbn [back_from_left]; try reflexivity.
  - rewrite (proj1 (proj1 (proj2 (proj2 (proj2 (proj2 (aggregates_transforms _))))))).
    apply (aggregates_transforms b).
  - apply (aggregates_transforms b).
  - apply (aggregates_transforms b).
Qed.

Lemma up_to_max_small (x : cell) : up_to_max x -> 0 <= x < 2 ^ 31.
Proof. unfold up_to_max, MAX_INDEX. lia. Qed.

Lemma in_domain_small (x : cell) : in_domain x -> 0 <= x < 2 ^ 31.
Proof. unfold in_domain, MAX_INDEX. lia. Qed.

(** The facts about one slide, before they are split into statements. *)
Lemma slide_law (b : board) (d : Z) :
  cell_domain b -> 0 <= d <= 3 ->
  all_cells up_to_max (fst (slide d b)) /\
  (forall r, 0 <= r <= 3 ->
     packed_left (grid_get (tile (toward_left d (fst (slide d b)))) r)) /\
  exists m, 0 <= m /\
    num_empty (fst (slide d b)) = num_empty b + m /\
    2 * m <= Z.max 0 (snd (slide d b)) /\
    snd (slide d b) <= 75025 * m /\
    (m = 0 <-> snd (slide d b) <= 0).
Proof.
  intros D Hd. pose proof (slide_via_left d b Hd) as V.
  assert (DX : cell_domain (toward_left d b)).
  { apply cell_domain_all, all_cells_toward_left, cell_domain_all, D. }
  destruct (slide_left_spec (toward_left d b)) as (E & I & S & N).
  destruct (slide_rows_law _ DX) as (B & P & m & M0 & MT & MS & MZ).
  assert (NX : num_empty (toward_left d b) = 16 - board_tiles (toward_left d b)).
  { apply num_empty_tiles. apply cell_domain_all in DX.
    revert DX. apply all_cells_weaken. exact in_domain_small. }
  assert (NR : num_empty (fst (slide_rows (toward_left d b)))
               = 16 - board_tiles (fst (slide_rows (toward_left d b)))).
  { apply num_empty_tiles. revert B. apply all_cells_weaken.
    exact up_to_max_small. }
  rewrite num_empty_toward_left in NX.
  pose proof (num_empty_back_from_left d
                (fst (slide_left (toward_left d b)))) as F1.
  pose proof (toward_back_from_left d
                (fst (slide_left (toward_left d b)))) as F2.
  pose proof (all_cells_back_from_left up_to_max d
                (fst (slide_left (toward_left d b)))) as F3.
  revert V E I S N B P MT MS MZ NR F1 F2 F3 NX.
  generalize (slide d b) as p.
  generalize (slide_left (toward_left d b)) as L.
  generalize (slide_rows (toward_left d b)) as R.
  generalize (toward_left d b) as X.
  intros X [R1 R2] [L1 L2] p. cbn [fst snd].
  intros V E I S N B P MT MS MZ NR F1 F2 F3 NX. subst p L1. cbn [fst snd].
  rewrite F1, F2. split; [apply F3; exact B|]. split; [exact P|].
  exists m. split; [exact M0|]. split; [lia|].
  destruct (Z.eq_dec L2 (-1)) as [U | U].
  - assert (X0 : R1 = X) by (apply I; exact U). subst R1.
    assert (m = 0) by lia. subst m. split; [lia|]. split; [lia|]. split; lia.
  - pose proof (S U) as SU. pose proof (N U) as NU.
    split; [lia|]. split; [lia|]. split.
    + intros Z0. rewrite SU. rewrite (MZ Z0). lia.
    + intros Z0. lia.
Qed.

(** X9.  A slide of a board of the cell domain, in any of the four
    directions, leaves every cell in [0, MAX_INDEX].  The bound is
    reached: the merge of the indices 22 and 23 writes [MAX_INDEX], one
    above the cell domain.  Seen in the orientation the slide works in,
    every row of the result has its tiles packed to the left, no tile
    after an empty cell. *)
Theorem slide_keeps_cells_bounded (b : board) (d : Z) :
  cell_domain b -> 0 <= d <= 3 ->
  all_cells (fun x => 0 <= x <= MAX_INDEX) (fst (slide d b)) /\
  (forall r, 0 <= r <= 3 ->
     packed_left (grid_get (tile (toward_left d (fst (slide d b)))) r)) /\
  (cell_domain tiles_22_23 /\ at1 (fst (slide 3 tiles_22_23)) 0 = MAX_INDEX).
Proof.
  intros D Hd. destruct (slide_law b d D Hd) as (B & P & _).
  split; [exact B|]. split; [exact P|]. split; reflexivity.
Qed.

Lemma slide_keeps_cells_bounded_witness :
  all_cells (fun x => 0 <= x <= MAX_INDEX) (fst (slide 3 board_s0)).
Proof.
  apply (slide_keeps_cells_bounded board_s0 3); [reflexivity | lia].
Defined.

(** X10.  A slide of a board of the cell domain never lowers
    [num_empty]; each cell it frees comes from one merge, which pays
    between 2 and 75025 (the entry of index [MAX_INDEX]), so the reward
    lies between twice and 75025 times the number of cells freed; and
    the count is unchanged exactly when the reward is 0 or the slide is
    illegal. *)
Theorem slide_frees_cells_for_reward (b : board) (d : Z) :
  cell_domain b -> 0 <= d <= 3 ->
  num_empty b <= num_empty (fst (slide d b)) /\
  2 * (num_empty (fst (slide d b)) - num_empty b) <= Z.max 0 (snd (slide d b)) /\
  snd (slide d b) <= 75025 * (num_empty (fst (slide d b)) - num_empty b) /\
  (num_empty (fst (slide d b)) = num_empty b <-> snd (slide d b) <= 0).
Proof.
  intros D Hd.
  destruct (slide_law b d D Hd) as (_ & _ & m & M0 & MN & MS & MU & MZ).
  split; [lia|]. split; [lia|]. split; [lia|].
  rewrite <- MZ. lia.
Qed.

Lemma slide_frees_cells_for_reward_witness :
  num_empty pair_board <= num_empty (fst (slide 3 pair_board)).
Proof.
  apply (slide_frees_cells_for_reward pair_board 3); [reflexivity | lia].
Defined.

(** X11.  [slide] reads the two low bits of its op code only: every
    integer op code acts as its residue modulo 4, so the default branch
    of the switch, which would return -1 without touching the board, is
    never taken. *)
Theorem slide_reads_low_bits (opcode : Z) (b : board) :
  slide opcode b = slide (opcode mod 4) b /\
  slide (opcode + 4) b = slide opcode b /\
  (slide opcode b = slide_up b \/ slide opcode b = slide_right b \/
   slide opcode b = slide_down b \/ slide opcode b = slide_left b).
Proof.
  assert (E : forall x, Z.land x 3 = x mod 4).
  { intros x. change 3 with (Z.ones 2). rewrite Z.land_ones by lia.
    reflexivity. }
  assert (R : 0 <= opcode mod 4 < 4) by (apply Z.mod_pos_bound; lia).
  unfold slide. rewrite !E.
  rewrite Z.mod_mod by lia.
  replace ((opcode + 4) mod 4) with (opcode mod 4)
    by (rewrite <- (Z.mod_add opcode 1 4) by lia; reflexivity).
  split; [reflexivity|]. split; [reflexivity|].
  assert (C : opcode mod 4 = 0 \/ opcode mod 4 = 1 \/
              opcode mod 4 = 2 \/ opcode mod 4 = 3) by lia.
  destruct C as [-> | [-> | [-> | ->]]]; cbv iota;
    [left | right; left | right; right; left | right; right; right];
    reflexivity.
Qed.

(** ** The monotonic heuristic: its range *)

Lemma fold_left_keeps {A B : Type} (P : A -> Prop) (f : A -> B -> A)
    (l : list B) (a : A) :
  (forall a x, P a -> P (f a x)) -> P a -> P (fold_left f l a).
Proof.
  intros H. revert a. induction l as [|x l IH]; intros a Pa; cbn [fold_left];
    [exact Pa | apply IH, H, Pa].
Qed.

Lemma mono_step_range (direction : Z) (x y : cell) (k l m : Z) :
  0 <= l <= k -> k < 4 -> 0 <= m <= 4 ->
  0 <= fst (mono_step direction x y (l, m)) <= k + 1 /\
  0 <= snd (mono_step direction x y (l, m)) <= 4.
Proof.
  intros Hl Hk Hm. unfold mono_step.
  destruct (_ =? direction); cbn [fst snd]; [|lia].
  destruct (Z.ltb_spec m (l + 1)); lia.
Qed.

(** One run of three comparisons keeps [max_length] within 0..4. *)
Lemma mono_run_range (direction : Z) (x y : Z -> cell) (l m : Z) :
  0 <= l <= 1 -> 0 <= m <= 4 ->
  0 <= snd (fold_left (fun st c => mono_step direction (x c) (y c) st)
                      [0; 1; 2] (l, m)) <= 4.
Proof.
  intros Hl Hm. cbn [fold_left].
  pose proof (mono_step_range direction (x 0) (y 0) 1 l m ltac:(lia) ltac:(lia) Hm) as [A1 B1].
  destruct (mono_step direction (x 0) (y 0) (l, m)) as [l1 m1]. cbn [fst snd] in *.
  pose proof (mono_step_range direction (x 1) (y 1) 2 l1 m1 ltac:(lia) ltac:(lia) B1) as [A2 B2].
  destruct (mono_step direction (x 1) (y 1) (l1, m1)) as [l2 m2]. cbn [fst snd] in *.
  pose proof (mono_step_range direction (x 2) (y 2) 3 l2 m2 ltac:(lia) ltac:(lia) B2) as [A3 B3].
  exact B3.
Qed.

Lemma monotonic_bounds (b : board) : 0 <= monotonic b <= 4.
Proof.
  unfold monotonic.
  apply (fold_left_keeps (fun m => 0 <= m <= 4)).
  - intros m c Hm. apply (fold_left_keeps (fun m => 0 <= m <= 4)); [|exact Hm].
    intros m' d Hm'.
    apply (mono_run_range d (fun r => get b r c) (fun r => get b (r + 1) c));
      [lia | exact Hm'].
  - apply (fold_left_keeps (fun m => 0 <= m <= 4)); [|lia].
    intros m r Hm. apply (fold_left_keeps (fun m => 0 <= m <= 4)); [|exact Hm].
    intros m' d Hm'.
    apply (mono_run_range d (fun c => get b r c) (fun c => get b r (c + 1)));
      [lia | exact Hm'].
Qed.

(** X12.  On every board whose cells are below [2^31], where the
    difference of two neighbouring cells is exact in [int], [monotonic]
    returns a number between 0 and 4: the run length restarts at 1 and
    is raised at most three times per row or column.  Both ends are
    reached. *)
Theorem monotonic_range (b : board) :
  int_cells b ->
  0 <= monotonic b <= 4 /\ monotonic empty_board = 0 /\
  monotonic (mk_board (Row 1 2 3 4) empty_row empty_row empty_row) = 4.
Proof.
  intros _. split; [apply monotonic_bounds|]. split; reflexivity.
Qed.

Lemma monotonic_range_witness : 0 <= monotonic board_s0 <= 4.
Proof.
  assert (H : int_cells board_s0) by (apply cell_domain_int_cells; reflexivity).
  exact (proj1 (monotonic_range board_s0 H)).
Defined.

(** ** The order on boards *)

Section Lex.

Variable A : Type.
Variable lt : A -> A -> bool.
Hypothesis lt_irrefl : forall x, lt x x = false.
Hypothesis lt_trans : forall x y z, lt x y = true -> lt y z = true -> lt x z = true.
Hypothesis lt_total : forall x y, lt x y = false -> lt y x = false -> x = y.

Lemma lt_asym (x y : A) : lt x y = true -> lt y x = false.
Proof.
  intros H. destruct (lt y x) eqn:E; [|reflexivity].
  rewrite <- (lt_irrefl x). symmetry. apply (lt_trans x y x); assumption.
Qed.

Lemma lex_irrefl (l : list A) : lex_lt lt l l = false.
Proof.
  induction l as [|x l IH]; cbn [lex_lt]; [reflexivity|].
  rewrite lt_irrefl. exact IH.
Qed.

Lemma lex_total (a : list A) : forall b,
  length a = length b ->
  lex_lt lt a b = false -> lex_lt lt b a = false -> a = b.
Proof.
  induction a as [|x a IH]; intros [|y b] L; cbn [lex_lt length] in *;
    try discriminate; [reflexivity|].
  destruct (lt x y) eqn:E1; [discriminate|].
  destruct (lt y x) eqn:E2; [discriminate|].
  intros H1 H2. rewrite (lt_total x y E1 E2). f_equal.
  apply IH; [lia | exact H1 | exact H2].
Qed.

Lemma lex_asym (a : list A) : forall b,
  lex_lt lt a b = true -> lex_lt lt b a = false.
Proof.
  induction a as [|x a IH]; intros [|y b]; cbn [lex_lt]; try discriminate;
    try reflexivity.
  destruct (lt x y) eqn:E1.
  - intros _. rewrite (lt_asym x y E1). reflexivity.
  - destruct (lt y x) eqn:E2; [discriminate|]. apply IH.
Qed.

Lemma lex_trans (a : list A) : forall b c,
  lex_lt lt a b = true -> lex_lt lt b c = true -> lex_lt lt a c = true.
Proof.
  induction a as [|x a IH]; intros [|y b] [|z c]; cbn [lex_lt];
    try discriminate; try reflexivity.
  destruct (lt x y) eqn:Exy.
  - intros _. destruct (lt y z) eqn:Eyz.
    + intros _. rewrite (lt_trans x y z Exy Eyz). reflexivity.
    + destruct (lt z y) eqn:Ezy; [discriminate|]. intros _.
      rewrite <- (lt_total y z Eyz Ezy). rewrite Exy. reflexivity.
  - destruct (lt y x) eqn:Eyx; [discriminate|].
    rewrite <- (lt_total x y Exy Eyx).
    intros H1. destruct (lt x z) eqn:Exz; [reflexivity|].
    destruct (lt z x) eqn:Ezx; [discriminate|]. apply IH. exact H1.
Qed.

End Lex.

Lemma row_cells_inj (a b : row) : row_cells a = row_cells b -> a = b.
Proof. destruct a, b. unfold row_cells. cbn. intros H. injection H as -> -> -> ->. reflexivity. Qed.

Lemma grid_rows_inj (a b : grid) : grid_rows a = grid_rows b -> a = b.
Proof. destruct a, b. unfold grid_rows. cbn. intros H. injection H as -> -> -> ->. reflexivity. Qed.

Lemma Zltb_irrefl (x : Z) : (x <? x) = false.
Proof. apply Z.ltb_irrefl. Qed.

Lemma Zltb_trans (x y z : Z) : (x <? y) = true -> (y <? z) = true -> (x <? z) = true.
Proof. rewrite !Z.ltb_lt. lia. Qed.

Lemma Zltb_total (x y : Z) : (x <? y) = false -> (y <? x) = false -> x = y.
Proof. rewrite !Z.ltb_ge. lia. Qed.

Lemma row_ltb_irrefl (a : row) : row_ltb a a = false.
Proof. apply lex_irrefl. exact Zltb_irrefl. Qed.

Lemma row_ltb_trans (a b c : row) :
  row_ltb a b = true -> row_ltb b c = true -> row_ltb a c = true.
Proof. apply lex_trans; [exact Zltb_trans | exact Zltb_total]. Qed.

Lemma row_ltb_total (a b : row) :
  row_ltb a b = false -> row_ltb b a = false -> a = b.
Proof.
  intros H1 H2. apply row_cells_inj.
  apply (lex_total Z Z.ltb Zltb_total); [reflexivity | exact H1 | exact H2].
Qed.

(** X13.  The comparison operators of [board] form a strict total order
    on the grids (the attribute takes no part): [<] is irreflexive and
    transitive, excludes [>] and [==], two boards that are not [<] either
    way are [==], and [<=], [>=] and [!=] are [< or ==], [> or ==] and
    [< or >]. *)
Theorem board_order (a b c : board) :
  board_ltb a a = false /\
  (board_ltb a b = true -> board_ltb b c = true -> board_ltb a c = true) /\
  (board_ltb a b = true -> board_ltb b a = false /\ board_eqb a b = false) /\
  (board_ltb a b = false -> board_ltb b a = false -> board_eqb a b = true) /\
  (board_eqb a b = true -> board_ltb a b = false /\ board_ltb b a = false) /\
  board_leb a b = board_ltb a b || board_eqb a b /\
  board_geb a b = board_gtb a b || board_eqb a b /\
  board_neb a b = board_ltb a b || board_gtb a b.
Proof.
  assert (I : forall x, board_ltb x x = false).
  { intros x. apply lex_irrefl. exact row_ltb_irrefl. }
  assert (As : forall x y, board_ltb x y = true -> board_ltb y x = false).
  { intros x y. apply lex_asym; [exact row_ltb_irrefl | exact row_ltb_trans]. }
  assert (To : forall x y, board_ltb x y = false -> board_ltb y x = false ->
                           board_eqb x y = true).
  { intros x y H1 H2. apply board_eqb_eq, grid_rows_inj.
    apply (lex_total row row_ltb row_ltb_total);
      [reflexivity | exact H1 | exact H2]. }
  assert (Eq : forall x y, board_eqb x y = true ->
                           board_ltb x y = false /\ board_ltb y x = false).
  { intros x y E. apply board_eqb_eq in E. unfold board_ltb. rewrite E.
    split; apply lex_irrefl; exact row_ltb_irrefl. }
  split; [apply I|]. split.
  { apply lex_trans; [exact row_ltb_trans | exact row_ltb_total]. }
  split.
  { intros H. split; [apply As, H|].
    destruct (board_eqb a b) eqn:E; [|reflexivity].
    destruct (Eq a b E) as [E1 _]. congruence. }
  split; [apply To|]. split; [apply Eq|].
  unfold board_leb, board_geb, board_gtb, board_neb.
  destruct (board_ltb a b) eqn:L1, (board_ltb b a) eqn:L2, (board_eqb a b) eqn:E;
    cbn [negb orb]; repeat split; try reflexivity; exfalso.
  all: try (pose proof (As a b L1); congruence).
  all: try (destruct (Eq a b E); congruence).
  all: try (pose proof (To a b L1 L2); congruence).
Qed.

(** * Further properties of the agents *)

(** ** Indices and tables *)

(** X14.  With the table sizes of [init_weights], every one of the
    sixteen entries that [estimate_value] reads and [adjust_value] writes
    for a board whose cells are below [2^31] lies inside its table, and
    one call of [adjust_value] leaves every entry outside the tables as
    it was. *)
Theorem reads_stay_in_tables (b : board) :
  int_cells b ->
  Forall in_table (reads b) /\
  (forall (w : weights) (a t : float) (e : entry),
      ~ in_table e -> lookup (adjust_value w a b t) e = lookup w e).
Proof.
  intros H.
  assert (F : Forall in_table (reads b)).
  { unfold reads.
    pose proof (proj1 (int_cells_rotate b H)) as L.
    pose proof (proj2 (int_cells_rotate b H)) as R.
    pose proof (proj1 (int_cells_rotate _ L)) as LL.
    apply Forall_app. split; [exact (touched_in_tables _ H)|].
    apply Forall_app. split; [exact (touched_in_tables _ LL)|].
    apply Forall_app. split; [exact (touched_in_tables _ L)|].
    exact (touched_in_tables _ R). }
  split; [exact F|].
  intros w a t e N. rewrite adjust_value_reads, bumps_lookup.
  rewrite (proj1 (count_occ_not_In entry_eq_dec (reads b) e)); [reflexivity|].
  intros I. apply N. rewrite Forall_forall in F. apply F, I.
Qed.

Lemma reads_stay_in_tables_witness : Forall in_table (reads board_s0).
Proof.
  apply (reads_stay_in_tables board_s0).
  unfold int_cells, all_cells.
  change (cells board_s0)
    with [1; 2; 3; 4; 5; 6; 7; 8; 9; 10; 11; 12; 13; 14; 15; 16].
  repeat (constructor; [lia|]). constructor.
Defined.

Lemma clamp_capped (b : board) (p : Z) :
  0 <= at1 b p < 2 ^ 31 -> clamp b p = capped (at1 b p).
Proof. intros H. unfold clamp, capped. rewrite to_int_small by exact H. reflexivity. Qed.

Lemma capped_range (x : cell) : 0 <= x -> 0 <= capped x <= 23.
Proof. unfold capped, MAX_INDEX. lia. Qed.

(** X15.  On boards whose cells are below [2^31], the index of a
    feature of four, five or six cells is the base-[MAX_INDEX] number of
    the cells capped at [MAX_INDEX - 1]: two boards get the same index
    exactly when their capped cells agree at the positions of the
    feature.  So boards of the cell domain share an entry only when they
    agree on the feature, and a cell holding [MAX_INDEX], which a merge
    can write, shares its entries with [MAX_INDEX - 1]. *)
Theorem extract_index_encodes_capped_cells (s t : board) (a b c d e f : Z) :
  int_cells s -> int_cells t ->
  (forall p, In p [a; b; c; d; e; f] -> 0 <= p < 16) ->
  (extract_index4 s a b c d = extract_index4 t a b c d <->
   map capped (map (at1 s) [a; b; c; d]) = map capped (map (at1 t) [a; b; c; d])) /\
  (extract_index5 s a b c d e = extract_index5 t a b c d e <->
   map capped (map (at1 s) [a; b; c; d; e])
   = map capped (map (at1 t) [a; b; c; d; e])) /\
  (extract_index6 s a b c d e f = extract_index6 t a b c d e f <->
   map capped (map (at1 s) [a; b; c; d; e; f])
   = map capped (map (at1 t) [a; b; c; d; e; f])).
Proof.
  intros Hs Ht Hp.
  assert (R : forall u p, int_cells u -> In p [a; b; c; d; e; f] ->
              clamp u p = capped (at1 u p) /\ 0 <= capped (at1 u p) <= 23).
  { intros u p Hu I.
    pose proof (all_cells_at1 _ u p Hu (Hp p I)) as B. cbn beta in B.
    split; [apply clamp_capped, B | apply capped_range; lia]. }
  assert (Ia : In a [a; b; c; d; e; f]) by (cbn [In]; tauto).
  assert (Ib : In b [a; b; c; d; e; f]) by (cbn [In]; tauto).
  assert (Ic : In c [a; b; c; d; e; f]) by (cbn [In]; tauto).
  assert (Id : In d [a; b; c; d; e; f]) by (cbn [In]; tauto).
  assert (Ie : In e [a; b; c; d; e; f]) by (cbn [In]; tauto).
  assert (If : In f [a; b; c; d; e; f]) by (cbn [In]; tauto).
  unfold extract_index4, extract_index5, extract_index6, MAX_INDEX. cbn [map].
  destruct (R s a Hs Ia) as [-> ?], (R s b Hs Ib) as [-> ?],
    (R s c Hs Ic) as [-> ?], (R s d Hs Id) as [-> ?],
    (R s e Hs Ie) as [-> ?], (R s f Hs If) as [-> ?].
  destruct (R t a Ht Ia) as [-> ?], (R t b Ht Ib) as [-> ?],
    (R t c Ht Ic) as [-> ?], (R t d Ht Id) as [-> ?],
    (R t e Ht Ie) as [-> ?], (R t f Ht If) as [-> ?].
  set (sa := capped (at1 s a)) in *. set (sb := capped (at1 s b)) in *.
  set (sc := capped (at1 s c)) in *. set (sd := capped (at1 s d)) in *.
  set (se := capped (at1 s e)) in *. set (sf := capped (at1 s f)) in *.
  set (ta := capped (at1 t a)) in *. set (tb := capped (at1 t b)) in *.
  set (tc := capped (at1 t c)) in *. set (td := capped (at1 t d)) in *.
  set (te := capped (at1 t e)) in *. set (tf := capped (at1 t f)) in *.
  clearbody sa sb sc sd se sf ta tb tc td te tf.
  split; [|split];
    (split; [intros E | intros E; injection E; intros; subst; reflexivity]).
  - assert (sa = ta /\ sb = tb /\ sc = tc /\ sd = td)
      as (-> & -> & -> & ->) by lia.
    reflexivity.
  - assert (sa = ta /\ sb = tb /\ sc = tc /\ sd = td /\ se = te)
      as (-> & -> & -> & -> & ->) by lia.
    reflexivity.
  - assert (sa = ta /\ sb = tb /\ sc = tc /\ sd = td /\ se = te /\ sf = tf)
      as (-> & -> & -> & -> & -> & ->) by lia.
    reflexivity.
Qed.

Lemma extract_index_encodes_capped_cells_witness :
  extract_index6 tile_23 0 1 4 5 8 9 = extract_index6 tile_24 0 1 4 5 8 9.
Proof.
  assert (S : int_cells tile_23).
  { unfold int_cells, all_cells.
    change (cells tile_23)
      with [23; 0; 0; 0; 0; 0; 0; 0; 0; 0; 0; 0; 0; 0; 0; 0].
    repeat (constructor; [lia|]). constructor. }
  assert (T : int_cells tile_24).
  { unfold int_cells, all_cells.
    change (cells tile_24)
      with [24; 0; 0; 0; 0; 0; 0; 0; 0; 0; 0; 0; 0; 0; 0; 0].
    repeat (constructor; [lia|]). constructor. }
  destruct (extract_index_encodes_capped_cells tile_23 tile_24 0 1 4 5 8 9 S T)
    as (_ & _ & W).
  - cbn [In]. lia.
  - apply W. reflexivity.
Defined.

(** ** Ties in the action selection *)

(** One iteration of the selection loop when every legal op has the
    composite [c]: a legal op is taken, an illegal one is skipped. *)
Lemma try_op_tie (w : weights) (before : board) (c : float) (bst : best) (op : Z) :
  F32.geb c c = true -> F32.geb c sentinel = true ->
  (legalb before op = true -> op_composite w before op = c) ->
  (bst = best_init \/ composite (best_value bst) (best_reward bst) = c) ->
  (legalb before op = true ->
   best_op (try_op w before bst op) = op /\
   composite (best_value (try_op w before bst op))
             (best_reward (try_op w before bst op)) = c) /\
  (legalb before op = false -> try_op w before bst op = bst).
Proof.
  intros Rc Sc Hc Hb.
  assert (G : F32.geb c (composite (best_value bst) (best_reward bst)) = true).
  { destruct Hb as [-> | ->]; [|exact Rc].
    change (composite (best_value best_init) (best_reward best_init))
      with sentinel. exact Sc. }
  revert Hc G. unfold legalb, op_composite, try_op.
  generalize (composite (best_value bst) (best_reward bst)) as cb.
  generalize (slide op before) as p.
  intros [aft r] cb. cbn [fst snd].
  generalize (estimate_value w aft) as v. intros v Hc G.
  destruct (r =? -1); cbn [negb] in *.
  - split; [discriminate | reflexivity].
  - split; [|discriminate]. intros _. specialize (Hc eq_refl).
    rewrite Hc, G. cbn [best_op best_value best_reward].
    split; [reflexivity | exact Hc].
Qed.

Lemma try_ops_tie (w : weights) (before : board) (c : float) (ops : list Z) :
  F32.geb c c = true -> F32.geb c sentinel = true ->
  (forall op, In op ops -> legalb before op = true -> op_composite w before op = c) ->
  forall bst acc,
    (bst = best_init /\ acc = -1 \/
     composite (best_value bst) (best_reward bst) = c /\ best_op bst = acc) ->
    best_op (fold_left (try_op w before) ops bst)
    = fold_left (fun acc op => if legalb before op then op else acc) ops acc.
Proof.
  intros Rc Sc. induction ops as [|op ops IH]; intros Hc bst acc Hb; cbn [fold_left].
  - destruct Hb as [[-> ->] | [_ E]]; [reflexivity | exact E].
  - assert (Hop : legalb before op = true -> op_composite w before op = c)
      by (apply Hc; left; reflexivity).
    assert (Hb' : bst = best_init \/ composite (best_value bst) (best_reward bst) = c)
      by (destruct Hb as [[? ?] | [? ?]]; [left | right]; assumption).
    destruct (try_op_tie w before c bst op Rc Sc Hop Hb') as [T1 T2].
    apply IH; [intros o Ho; apply Hc; right; exact Ho|].
    destruct (legalb before op) eqn:L.
    + destruct (T1 eq_refl) as [E1 E2]. right. split; assumption.
    + rewrite (T2 eq_refl). destruct Hb as [[? ?] | [? ?]]; [left | right]; split; assumption.
Qed.

(** X16.  On an input board of the cell domain, when every legal op has
    the same [value + reward], a float that compares [>=] to itself and
    to the initial best, the player takes the last legal op in the order
    0, 1, 2, 3: the comparison is [>=], so each legal op replaces the one
    kept before it. *)
Theorem take_action_ties_go_to_last_op (p : player) (before : board) (c : float) :
  cell_domain before ->
  F32.geb c c = true -> F32.geb c sentinel = true ->
  (forall op, In op upto4 -> legalb before op = true ->
              op_composite (net p) before op = c) ->
  best_op (choose (net p) before) = last_legal before upto4 /\
  fst (take_action p before) = action_slide (last_legal before upto4).
Proof.
  intros _ Rc Sc Hc.
  assert (E : best_op (choose (net p) before) = last_legal before upto4).
  { unfold choose, last_legal.
    apply (try_ops_tie (net p) before c upto4 Rc Sc Hc). left. split; reflexivity. }
  split; [exact E|]. unfold take_action. cbn [fst]. rewrite E. reflexivity.
Qed.

Lemma take_action_ties_go_to_last_op_witness :
  cell_domain tile_at_5 /\
  F32.geb F32.zero F32.zero = true /\ F32.geb F32.zero sentinel = true /\
  fst (take_action (Player zero_weights F32.one_tenth []) tile_at_5) = Slide 3.
Proof.
  assert (D : cell_domain tile_at_5) by reflexivity.
  assert (Rc : F32.geb F32.zero F32.zero = true) by reflexivity.
  assert (Sc : F32.geb F32.zero sentinel = true) by reflexivity.
  split; [exact D|]. split; [exact Rc|]. split; [exact Sc|].
  apply (take_action_ties_go_to_last_op
           (Player zero_weights F32.one_tenth []) tile_at_5 F32.zero D Rc Sc).
  unfold upto4. cbn [In net].
  intros op [<- | [<- | [<- | [<- | []]]]] _; vm_compute; reflexivity.
Defined.

(** ** What [close_episode] keeps *)

Lemma adjust_untouched (w : weights) (a : float) (b : board) (t : float) (e : entry) :
  ~ In e (reads b) -> lookup (adjust_value w a b t) e = lookup w e.
Proof.
  intros N. rewrite adjust_value_reads, bumps_lookup.
  rewrite (proj1 (count_occ_not_In entry_eq_dec (reads b) e) N). reflexivity.
Qed.

(** The backward pass leaves alone an entry that no after-state of the
    history reads. *)
Lemma td_steps_untouched (h : list step) (a : float) (e : entry) (l : list nat) :
  (forall s, In s h -> ~ In e (reads (after s))) ->
  (forall i, In i l -> (i < length h)%nat) ->
  forall w, lookup (fold_left (td_step h a) l w) e = lookup w e.
Proof.
  intros U. induction l as [|i l IH]; intros B w; cbn [fold_left]; [reflexivity|].
  rewrite IH by (intros j Hj; apply B; right; exact Hj).
  unfold td_step. apply adjust_untouched. apply U.
  unfold hist_at. apply nth_In. apply B. left. reflexivity.
Qed.

(** X17.  For a history whose after-states have their cells below
    [2^31], so that every entry touched lies inside its table:
    [close_episode] never changes the history or [alpha]; with an empty
    history or [alpha == 0] it changes nothing at all; and in every case
    an entry that is read for none of the after-states of the history
    keeps its weight. *)
Theorem close_episode_frame (p : player) :
  (forall s, In s (history p) -> int_cells (after s)) ->
  (forall s, In s (history p) -> Forall in_table (reads (after s))) /\
  history (close_episode p) = history p /\
  alpha (close_episode p) = alpha p /\
  (history p = [] \/ F32.eqb (alpha p) (F32.of_int 0) = true ->
   close_episode p = p) /\
  (forall e : entry,
      (forall s, In s (history p) -> ~ In e (reads (after s))) ->
      lookup (net (close_episode p)) e = lookup (net p) e).
Proof.
  intros Hh.
  split; [intros s I; exact (reads_in_tables _ (Hh s I))|]. clear Hh.
  destruct p as [w a h]. unfold close_episode. cbn [history alpha net].
  destruct h as [|s0 h'].
  { repeat split; try reflexivity. }
  set (h := s0 :: h').
  destruct (F32.eqb a (F32.of_int 0)) eqn:Ea; cbn [history alpha net].
  { repeat split; reflexivity. }
  split; [reflexivity|]. split; [reflexivity|]. split.
  { intros [H | H]; discriminate. }
  intros e U.
  assert (L : (length h - 1 < length h)%nat) by (unfold h; cbn [length]; lia).
  rewrite td_steps_untouched.
  - apply adjust_untouched. apply U. unfold hist_at. apply nth_In. exact L.
  - exact U.
  - intros i Hi. unfold td_indices in Hi. apply in_rev, in_seq in Hi. lia.
Qed.

Lemma close_episode_frame_witness :
  history (close_episode episode_0_5) = history episode_0_5.
Proof.
  assert (H : forall s, In s (history episode_0_5) -> int_cells (after s)).
  { intros s [<- | [<- | []]]; apply cell_domain_int_cells; reflexivity. }
  destruct (close_episode_frame episode_0_5 H) as (_ & W & _). exact W.
Defined.

(** ** The random environment *)

Lemma rndenv_scan_none (space : list Z) (popup : Z) (aft : board) :
  rndenv_scan space popup aft = None <->
  (forall pos, In pos space -> at1 aft pos <> 0).
Proof.
  induction space as [|p space IH]; cbn [rndenv_scan In]; [tauto|].
  destruct (Z.eqb_spec (at1 aft p) 0) as [E | N]; cbn [negb].
  - split; [discriminate|]. intros H. exfalso. apply (H p); [left; reflexivity | exact E].
  - rewrite IH. split.
    + intros H pos [<- | I]; [exact N | apply H, I].
    + intros H pos I. apply H. right. exact I.
Qed.

Lemma rndenv_scan_some (space : list Z) (popup : Z) (aft : board) (pos : Z) (t : cell) :
  rndenv_scan space popup aft = Some (pos, t) ->
  In pos space /\ at1 aft pos = 0 /\ (t = 1 \/ t = 2) /\
  (t = 2 <-> popup = 0).
Proof.
  induction space as [|p space IH]; cbn [rndenv_scan In]; [discriminate|].
  destruct (Z.eqb_spec (at1 aft p) 0) as [E | N]; cbn [negb].
  - intros H. injection H as <- <-. split; [left; reflexivity|]. split; [exact E|].
    destruct (Z.eqb_spec popup 0); cbn [negb]; split; try tauto; split; try lia; congruence.
  - intros H. destruct (IH H) as (I & R). split; [right; exact I | exact R].
Qed.

(** X18.  Whatever the shuffle of the sixteen positions and the number
    drawn, [rndenv::take_action] returns the null action exactly when
    the board has no empty cell; otherwise it proposes a position in
    0..15 whose cell is empty, with tile 2 when the number drawn is 0 and
    tile 1 otherwise, and [board::place] accepts the proposal: it returns
    0, sets that cell and lowers [num_empty] by one. *)
Theorem rndenv_places_on_empty_cell (space : list Z) (popup : Z) (aft : board) :
  Permutation positions space ->
  (rndenv_scan space popup aft = None <->
   forall pos, 0 <= pos < 16 -> at1 aft pos <> 0) /\
  (forall pos t,
      rndenv_scan space popup aft = Some (pos, t) ->
      0 <= pos < 16 /\ at1 aft pos = 0 /\ (t = 2 <-> popup = 0) /\
      snd (place aft pos t) = 0 /\
      at1 (fst (place aft pos t)) pos = t /\
      num_empty (fst (place aft pos t)) = num_empty aft - 1).
Proof.
  intros P. split.
  - rewrite rndenv_scan_none. split.
    + intros H pos Hp. apply H. apply (Permutation_in _ P).
      apply in_positions. exact Hp.
    + intros H pos I. apply H. apply in_positions.
      apply (Permutation_in _ (Permutation_sym P)). exact I.
  - intros pos t H. apply rndenv_scan_some in H. destruct H as (I & E & T & Q).
    assert (R : 0 <= pos < 16).
    { apply in_positions. apply (Permutation_in _ (Permutation_sym P)). exact I. }
    rewrite (place_valid aft pos t R T). cbn [fst snd].
    split; [exact R|]. split; [exact E|]. split; [exact Q|].
    split; [reflexivity|]. split.
    + rewrite at1_set by lia. rewrite Z.eqb_refl. reflexivity.
    + rewrite num_empty_set by exact R. rewrite E.
      assert (emptyZ t = 0) by (destruct T as [-> | ->]; reflexivity).
      change (emptyZ 0) with 1. lia.
Qed.

Lemma rndenv_places_on_empty_cell_witness :
  snd (place tile_at_5 0 2) = 0.
Proof.
  destruct (rndenv_places_on_empty_cell positions 0 tile_at_5
              (Permutation_refl positions)) as [_ W].
  destruct (W 0 2 eq_refl) as (_ & _ & _ & E & _). exact E.
Defined.

(** ** The dummy player *)

(** One iteration of a loop that keeps the best op. *)
Lemma best_among_step (g : Z -> Z) (before : board) (ops : list Z)
    (st : Z * Z) (op : Z) :
  (legalb before op = true -> 0 <= g op) ->
  best_among g before ops st ->
  best_among g before (ops ++ [op])
    (if legalb before op
     then if snd st <=? g op then (op, g op) else st
     else st).
Proof.
  intros Hg [(A & B & C) | (A & B & C & D)].
  - destruct (legalb before op) eqn:L.
    + specialize (Hg eq_refl). rewrite B.
      destruct (Z.leb_spec 0 (g op)); [|lia].
      right. cbn [fst snd]. split; [apply in_or_app; right; left; reflexivity|].
      split; [exact L|]. split; [reflexivity|].
      intros o Ho Lo. apply in_app_or in Ho. destruct Ho as [Ho | [<- | []]]; [|lia].
      rewrite (C o Ho) in Lo. discriminate.
    + left. split; [exact A|]. split; [exact B|].
      intros o Ho. apply in_app_or in Ho. destruct Ho as [Ho | [<- | []]];
        [apply C, Ho | exact L].
  - destruct (legalb before op) eqn:L.
    + destruct (Z.leb_spec (snd st) (g op)).
      * right. cbn [fst snd]. split; [apply in_or_app; right; left; reflexivity|].
        split; [exact L|]. split; [reflexivity|].
        intros o Ho Lo. apply in_app_or in Ho. destruct Ho as [Ho | [<- | []]]; [|lia].
        specialize (D o Ho Lo). lia.
      * right. split; [apply in_or_app; left; exact A|].
        split; [exact B|]. split; [exact C|].
        intros o Ho Lo. apply in_app_or in Ho. destruct Ho as [Ho | [<- | []]];
          [apply D; assumption | lia].
    + right. split; [apply in_or_app; left; exact A|].
      split; [exact B|]. split; [exact C|].
      intros o Ho Lo. apply in_app_or in Ho. destruct Ho as [Ho | [<- | []]];
        [apply D; assumption | congruence].
Qed.

(** The loops of the heuristic modes end on a best legal op, provided
    the scores of the legal ops are not negative (the best starts at 0). *)
Lemma heuristic_loop_best (f : board -> Z -> Z) (before : board) (ops : list Z) :
  (forall op, In op ops -> legalb before op = true -> 0 <= op_score f before op) ->
  best_among (op_score f before) before ops (heuristic_loop f ops before).
Proof.
  unfold heuristic_loop. induction ops as [|op ops IH] using rev_ind; intros H.
  - left. cbn. repeat split. intros op [].
  - rewrite fold_left_app. cbn [fold_left].
    assert (IH' := IH (fun o Ho => H o (in_or_app _ _ _ (or_introl Ho)))).
    assert (Iop : In op (ops ++ [op]))
      by (apply in_or_app; right; left; reflexivity).
    pose proof (best_among_step (op_score f before) before ops _ op
                  (H op Iop) IH') as S.
    revert S. unfold legalb, op_score.
    generalize (fold_left
      (fun (st : Z * Z) (op0 : Z) =>
         let (tmp_board, reward) := slide op0 before in
         if reward =? -1 then st
         else if snd st <=? f tmp_board reward then (op0, f tmp_board reward) else st)
      ops (-1, 0)) as st.
    generalize (slide op before) as p. intros [tmp r] st. cbn [fst snd].
    destruct (r =? -1); cbn [negb]; intros S; exact S.
Qed.

Lemma score_loop_best (before : board) (ops : list Z) :
  (forall op, In op ops -> legalb before op = true -> 0 <= snd (slide op before)) ->
  best_among (fun op => snd (slide op before)) before ops (score_loop ops before).
Proof.
  unfold score_loop. induction ops as [|op ops IH] using rev_ind; intros H.
  - left. cbn. repeat split. intros op [].
  - rewrite fold_left_app. cbn [fold_left].
    assert (IH' := IH (fun o Ho => H o (in_or_app _ _ _ (or_introl Ho)))).
    assert (Iop : In op (ops ++ [op]))
      by (apply in_or_app; right; left; reflexivity).
    pose proof (best_among_step (fun op => snd (slide op before)) before ops _ op
                  (H op Iop) IH') as S.
    cbn beta in S. revert S IH'. unfold legalb.
    generalize (fold_left
      (fun (st : Z * Z) (op0 : Z) =>
         if snd st <=? snd (slide op0 before) then (op0, snd (slide op0 before)) else st)
      ops (-1, 0)) as st.
    generalize (snd (slide op before)) as r. intros r st.
    destruct (Z.eqb_spec r (-1)) as [-> | N]; cbn [negb]; intros S IH'; [|exact S].
    assert (0 <= snd st).
    { destruct IH' as [(_ & B & _) | (A & B & C & _)]; [lia|].
      rewrite C. apply H; [apply in_or_app; left; exact A | exact B]. }
    destruct (Z.leb_spec (snd st) (-1)); [lia | exact S].
Qed.

Lemma best_among_finish (g : Z -> Z) (before : board) (ops : list Z) (st : Z * Z) :
  (forall op, In op ops -> 0 <= op) ->
  best_among g before ops st ->
  (finish (fst st) = None <-> forall op, In op ops -> legalb before op = false) /\
  (forall op, finish (fst st) = Some op ->
     In op ops /\ legalb before op = true /\
     forall o, In o ops -> legalb before o = true -> g o <= g op).
Proof.
  intros P [(A & B & C) | (A & B & C & D)]; unfold finish.
  - rewrite A. cbn. split; [tauto | discriminate].
  - pose proof (P _ A).
    destruct (Z.eqb_spec (fst st) (-1)); [lia|]. cbn [negb]. split.
    + split; [discriminate|]. intros H'. rewrite (H' _ A) in B. discriminate.
    + intros op E. injection E as <-. split; [exact A|]. split; [exact B|].
      intros o Ho Lo. rewrite <- C. apply D; assumption.
Qed.

Lemma first_legal_spec (before : board) (ops : list Z) :
  (first_legal ops before = None <-> forall op, In op ops -> legalb before op = false) /\
  (forall op, first_legal ops before = Some op -> In op ops /\ legalb before op = true).
Proof.
  unfold legalb. induction ops as [|o ops [IH1 IH2]]; cbn [first_legal In].
  - split; [tauto | discriminate].
  - destruct (negb (snd (slide o before) =? -1)) eqn:L.
    + split.
      * split; [discriminate|]. intros H. rewrite (H o (or_introl eq_refl)) in L. discriminate.
      * intros op E. injection E as <-. split; [left; reflexivity | exact L].
    + split.
      * rewrite IH1. split.
        -- intros H op [<- | I]; [exact L | apply H, I].
        -- intros H op I. apply H. right. exact I.
      * intros op E. destruct (IH2 op E). split; [right|]; assumption.
Qed.

Lemma first_legal_prefix (before : board) (ops : list Z) (op : Z) :
  first_legal ops before = Some op ->
  exists l1 l2, ops = l1 ++ op :: l2 /\
    forall o, In o l1 -> snd (slide o before) = -1.
Proof.
  induction ops as [|o ops IH]; cbn [first_legal]; [discriminate|].
  destruct (Z.eqb_spec (snd (slide o before)) (-1)) as [E | N]; cbn [negb].
  - intros H. destruct (IH H) as (l1 & l2 & -> & A).
    exists (o :: l1), l2. split; [reflexivity|].
    intros x [<- | I]; [exact E | apply A, I].
  - intros H. injection H as <-. exists [], ops. split; [reflexivity|].
    intros x [].
Qed.

Lemma legal_reward_nonneg (before : board) (op : Z) :
  0 <= op <= 3 -> legalb before op = true -> 0 <= snd (slide op before).
Proof.
  intros H L. unfold legalb in L. apply negb_true_iff, Z.eqb_neq in L.
  pose proof (slide_via_left op before H) as V.
  destruct (slide_left_spec (toward_left op before)) as (_ & _ & _ & N).
  revert L V N.
  generalize (slide op before) as p.
  generalize (slide_left (toward_left op before)) as q.
  intros [q1 q2] p. cbn [fst snd]. intros L V N. subst p. cbn [snd] in *.
  apply N. exact L.
Qed.

Lemma upto4_range (op : Z) : In op upto4 <-> 0 <= op <= 3.
Proof. unfold upto4. cbn [In]. lia. Qed.

(** On a board of the cell domain the reward of a legal slide is at
    most 16 merges of 75025, and the corner sum of the result at most
    four cells of [MAX_INDEX]: no wrap-around in either. *)
Lemma legal_scores_fit (before : board) (op : Z) :
  cell_domain before -> 0 <= op <= 3 -> legalb before op = true ->
  0 <= snd (slide op before) <= 1200400 /\
  0 <= corner_sum (fst (slide op before)) <= 96.
Proof.
  intros D H L. pose proof (legal_reward_nonneg before op H L) as R.
  destruct (slide_law before op D H) as (B & _ & m & M0 & MN & _ & MU & _).
  pose proof (num_empty_range before). pose proof (num_empty_range (fst (slide op before))).
  split; [lia|].
  rewrite corner_sum_wrap.
  pose proof (proj1 (cells_all up_to_max _) B) as G.
  pose proof (G 0 0 ltac:(lia) ltac:(lia)). pose proof (G 0 3 ltac:(lia) ltac:(lia)).
  pose proof (G 3 0 ltac:(lia) ltac:(lia)). pose proof (G 3 3 ltac:(lia) ltac:(lia)).
  unfold up_to_max, MAX_INDEX in *.
  rewrite to_cell_small by lia. rewrite to_int_small by lia. lia.
Qed.

(** The op the dummy player settles on, mode by mode. *)
Lemma dummy_op_law (mode : string) (opcode : list Z) (before : board) :
  cell_domain before -> Permutation upto4 opcode ->
  String.eqb mode "moron" = false ->
  (dummy_op mode opcode before = None <->
   forall op, In op upto4 -> legalb before op = false) /\
  (forall op, dummy_op mode opcode before = Some op ->
     In op upto4 /\ legalb before op = true /\
     (String.eqb mode "score" = true ->
      forall o, In o upto4 -> legalb before o = true ->
        snd (slide o before) <= snd (slide op before)) /\
     (String.eqb mode "space" = true ->
      forall o, In o upto4 -> legalb before o = true ->
        num_empty (fst (slide o before)) <= num_empty (fst (slide op before))) /\
     (String.eqb mode "monotonic" = true ->
      forall o, In o upto4 -> legalb before o = true ->
        snd (slide o before) + monotonic (fst (slide o before))
        <= snd (slide op before) + monotonic (fst (slide op before))) /\
     (String.eqb mode "corner" = true ->
      forall o, In o upto4 -> legalb before o = true ->
        snd (slide o before) + corner_sum (fst (slide o before))
        <= snd (slide op before) + corner_sum (fst (slide op before))) /\
     (String.eqb mode "score" = false -> String.eqb mode "space" = false ->
      String.eqb mode "monotonic" = false -> String.eqb mode "corner" = false ->
      first_legal opcode before = Some op)).
Proof.
  intros D P M.
  assert (Q : forall op, In op opcode <-> In op upto4).
  { intros op. split; apply Permutation_in; [apply Permutation_sym|]; exact P. }
  assert (R : forall op, In op opcode -> 0 <= op).
  { intros op I. apply Q, upto4_range in I. lia. }
  assert (RW : forall op, In op opcode -> legalb before op = true ->
                          0 <= snd (slide op before)).
  { intros op I. apply legal_reward_nonneg. apply upto4_range, Q, I. }
  assert (G : forall g st, best_among g before opcode st ->
     (finish (fst st) = None <-> forall op, In op upto4 -> legalb before op = false) /\
     (forall op, finish (fst st) = Some op ->
        In op upto4 /\ legalb before op = true /\
        forall o, In o upto4 -> legalb before o = true -> g o <= g op)).
  { intros g st B. destruct (best_among_finish g before opcode st R B) as [F1 F2]. split.
    - rewrite F1. split; intros H op I; apply H, Q, I.
    - intros op E. destruct (F2 op E) as (I & L & Mx). split; [apply Q, I|].
      split; [exact L|]. intros o Io. apply Mx, Q, Io. }
  unfold dummy_op. rewrite M.
  destruct (String.eqb mode "score") eqn:E1.
  { destruct (G _ _ (score_loop_best before opcode RW)) as [G1 G2].
    split; [exact G1|]. intros op E. destruct (G2 op E) as (I & L & Mx).
    split; [exact I|]. split; [exact L|].
    split; [intros _; exact Mx|].
    pose proof (proj1 (String.eqb_eq _ _) E1) as Em.
    assert (E2 : String.eqb mode "space" = false) by (rewrite Em; reflexivity).
    assert (E3 : String.eqb mode "monotonic" = false) by (rewrite Em; reflexivity).
    assert (E4 : String.eqb mode "corner" = false) by (rewrite Em; reflexivity).
    rewrite E2, E3, E4. repeat (split; [discriminate|]). discriminate. }
  destruct (String.eqb mode "space") eqn:E2.
  { assert (B : best_among (op_score (fun tmp _ => num_empty tmp) before) before opcode
                  (heuristic_loop (fun tmp _ => num_empty tmp) opcode before)).
    { apply heuristic_loop_best. intros op _ _. apply num_empty_range. }
    destruct (G _ _ B) as [G1 G2].
    split; [exact G1|]. intros op E. destruct (G2 op E) as (I & L & Mx).
    split; [exact I|]. split; [exact L|].
    split; [discriminate|]. split; [intros _; exact Mx|].
    pose proof (proj1 (String.eqb_eq _ _) E2) as Em.
    assert (E3 : String.eqb mode "monotonic" = false) by (rewrite Em; reflexivity).
    assert (E4 : String.eqb mode "corner" = false) by (rewrite Em; reflexivity).
    rewrite E3, E4. repeat (split; [discriminate|]). intros; discriminate. }
  destruct (String.eqb mode "monotonic") eqn:E3.
  { assert (B : best_among (op_score (fun tmp reward => reward + monotonic tmp) before)
                  before opcode
                  (heuristic_loop (fun tmp reward => reward + monotonic tmp) opcode before)).
    { apply heuristic_loop_best. intros op I L. unfold op_score.
      pose proof (RW op I L). pose proof (monotonic_bounds (fst (slide op before))). lia. }
    destruct (G _ _ B) as [G1 G2].
    split; [exact G1|]. intros op E. destruct (G2 op E) as (I & L & Mx).
    split; [exact I|]. split; [exact L|].
    split; [discriminate|]. split; [discriminate|]. split; [intros _; exact Mx|].
    pose proof (proj1 (String.eqb_eq _ _) E3) as Em.
    assert (E4 : String.eqb mode "corner" = false) by (rewrite Em; reflexivity).
    rewrite E4. split; [discriminate|]. intros; discriminate. }
  destruct (String.eqb mode "corner") eqn:E4.
  { assert (B : best_among (op_score (fun tmp reward => reward + corner_sum tmp) before)
                  before opcode
                  (heuristic_loop (fun tmp reward => reward + corner_sum tmp) opcode before)).
    { apply heuristic_loop_best. intros op I L. unfold op_score.
      assert (Hop : 0 <= op <= 3) by (apply upto4_range, Q, I).
      destruct (legal_scores_fit before op D Hop L). lia. }
    destruct (G _ _ B) as [G1 G2].
    split; [exact G1|]. intros op E. destruct (G2 op E) as (I & L & Mx).
    split; [exact I|]. split; [exact L|].
    split; [discriminate|]. split; [discriminate|]. split; [discriminate|].
    split; [intros _; exact Mx|]. intros; discriminate. }
  destruct (first_legal_spec before opcode) as [F1 F2]. split.
  - rewrite F1. split; intros H op I; apply H, Q, I.
  - intros op E. destruct (F2 op E) as [I L]. split; [apply Q, I|].
    split; [exact L|]. repeat (split; [discriminate|]). intros _ _ _ _. exact E.
Qed.

Lemma action_slide_op (op : Z) : 0 <= op <= 3 -> action_slide op = Slide op.
Proof.
  intros H. unfold action_slide.
  destruct (Z.leb_spec 0 op); [|lia]. destruct (Z.leb_spec op 3); [|lia].
  reflexivity.
Qed.

Lemma dummy_take_action_op (mode : string) (opcode : list Z) (before : board) :
  cell_domain before -> Permutation upto4 opcode ->
  String.eqb mode "moron" = false ->
  (dummy_take_action mode opcode before = Null <->
   dummy_op mode opcode before = None) /\
  (forall d, dummy_take_action mode opcode before = Slide d <->
             dummy_op mode opcode before = Some d).
Proof.
  intros D P M. destruct (dummy_op_law mode opcode before D P M) as [_ S].
  unfold dummy_take_action. destruct (dummy_op mode opcode before) as [op|].
  - destruct (S op eq_refl) as (I & _). apply upto4_range in I.
    rewrite (action_slide_op op I). split.
    + split; discriminate.
    + intros d. split; intros E; injection E as <-; reflexivity.
  - split; [tauto|]. intros d. split; discriminate.
Qed.

Lemma legalb_spec (before : board) (op : Z) :
  (legalb before op = true <-> snd (slide op before) <> -1) /\
  (legalb before op = false <-> snd (slide op before) = -1).
Proof.
  unfold legalb. destruct (Z.eqb_spec (snd (slide op before)) (-1)); cbn [negb].
  - split; split; try discriminate; try tauto. 
  - split; split; try discriminate; try tauto.
Qed.

Lemma string_eqb_neq (a b : string) : a <> b <-> String.eqb a b = false.
Proof. symmetry. apply String.eqb_neq. Qed.

(** X19.  On a board of the cell domain and for any shuffle of the four
    ops, the dummy player in mode [moron] returns the null action; in
    every other mode, heuristic or default, it returns the null action
    exactly when no slide is legal, and otherwise a slide in 0..3 that is
    legal on the board. *)
Theorem dummy_player_moves_iff_legal (mode : string) (opcode : list Z)
    (before : board) :
  cell_domain before -> Permutation upto4 opcode ->
  (mode = "moron"%string -> dummy_take_action mode opcode before = Null) /\
  (mode <> "moron"%string ->
   (dummy_take_action mode opcode before = Null <->
    forall op, 0 <= op <= 3 -> snd (slide op before) = -1) /\
   (forall d, dummy_take_action mode opcode before = Slide d ->
      0 <= d <= 3 /\ snd (slide d before) <> -1)).
Proof.
  intros D P. split.
  - intros ->. reflexivity.
  - intros M. apply string_eqb_neq in M.
    destruct (dummy_op_law mode opcode before D P M) as [N S].
    destruct (dummy_take_action_op mode opcode before D P M) as [TN TS].
    split.
    + rewrite TN, N. split; intros H op Hop.
      * apply legalb_spec, H, upto4_range, Hop.
      * apply legalb_spec, H, upto4_range, Hop.
    + intros d E. apply TS in E. destruct (S d E) as (I & L & _).
      split; [apply upto4_range, I | apply legalb_spec, L].
Qed.

Lemma dummy_player_moves_iff_legal_witness :
  0 <= 3 <= 3 /\ snd (slide 3 tile_at_5) <> -1.
Proof.
  assert (D : cell_domain tile_at_5) by reflexivity.
  assert (P : Permutation upto4 [1; 0; 2; 3]) by (apply perm_swap).
  destruct (dummy_player_moves_iff_legal "corner" [1; 0; 2; 3] tile_at_5 D P)
    as [_ W].
  destruct (W ltac:(discriminate)) as [_ S].
  apply S. vm_compute. reflexivity.
Defined.

(** X20.  Which slide the dummy player returns, on a board of the cell
    domain and for any shuffle of the four ops: in mode [score] one of
    the largest reward; in mode [space] a legal one that leaves the most
    empty cells; in modes [monotonic] and [corner] a legal one of the
    largest [reward + monotonic()], respectively
    [reward + corner_sum()]; in any other mode the first legal op of the
    shuffled order.  The two sums stay inside the range of [int]. *)
Theorem dummy_player_maximises (mode : string) (opcode : list Z)
    (before : board) (d : Z) :
  cell_domain before -> Permutation upto4 opcode ->
  dummy_take_action mode opcode before = Slide d ->
  (mode = "score"%string ->
   forall o, 0 <= o <= 3 -> snd (slide o before) <= snd (slide d before)) /\
  (mode = "space"%string ->
   forall o, 0 <= o <= 3 -> snd (slide o before) <> -1 ->
     num_empty (fst (slide o before)) <= num_empty (fst (slide d before))) /\
  (mode = "monotonic"%string ->
   forall o, 0 <= o <= 3 -> snd (slide o before) <> -1 ->
     snd (slide o before) + monotonic (fst (slide o before))
     <= snd (slide d before) + monotonic (fst (slide d before))) /\
  (mode = "corner"%string ->
   forall o, 0 <= o <= 3 -> snd (slide o before) <> -1 ->
     snd (slide o before) + corner_sum (fst (slide o before))
     <= snd (slide d before) + corner_sum (fst (slide d before))) /\
  (mode <> "score"%string -> mode <> "space"%string ->
   mode <> "monotonic"%string -> mode <> "corner"%string ->
   exists l1 l2, opcode = l1 ++ d :: l2 /\
     forall o, In o l1 -> snd (slide o before) = -1) /\
  (forall o, 0 <= o <= 3 -> snd (slide o before) <> -1 ->
     0 <= snd (slide o before) + monotonic (fst (slide o before)) < 2 ^ 31 /\
     0 <= snd (slide o before) + corner_sum (fst (slide o before)) < 2 ^ 31).
Proof.
  intros D P E.
  assert (M : String.eqb mode "moron" = false).
  { destruct (String.eqb_spec mode "moron") as [-> | N]; [|reflexivity].
    discriminate E. }
  destruct (dummy_op_law mode opcode before D P M) as [_ S].
  apply (dummy_take_action_op mode opcode before D P M) in E.
  destruct (S d E) as (I & L & S1 & S2 & S3 & S4 & S5).
  apply legalb_spec in L.
  split; [|split; [|split; [|split; [|split]]]].
  - intros ->. intros o Ho.
    destruct (Z.eq_dec (snd (slide o before)) (-1)) as [U | U].
    + rewrite U. apply upto4_range in I.
      pose proof (legal_reward_nonneg before d I (proj2 (proj1 (legalb_spec _ _)) L)).
      lia.
    + apply S1; [reflexivity | apply upto4_range, Ho | apply legalb_spec, U].
  - intros -> o Ho U. apply S2; [reflexivity | apply upto4_range, Ho | apply legalb_spec, U].
  - intros -> o Ho U. apply S3; [reflexivity | apply upto4_range, Ho | apply legalb_spec, U].
  - intros -> o Ho U. apply S4; [reflexivity | apply upto4_range, Ho | apply legalb_spec, U].
  - intros N1 N2 N3 N4. apply string_eqb_neq in N1, N2, N3, N4.
    apply first_legal_prefix. apply S5; assumption.
  - intros o Ho U. apply legalb_spec in U.
    destruct (legal_scores_fit before o D Ho U) as [A B].
    pose proof (monotonic_bounds (fst (slide o before))). lia.
Qed.

Lemma dummy_player_maximises_witness :
  num_empty (fst (slide 1 tile_at_5)) <= num_empty (fst (slide 3 tile_at_5)).
Proof.
  assert (D : cell_domain tile_at_5) by (vm_compute; reflexivity).
  assert (P : Permutation upto4 [1; 0; 2; 3]) by (apply perm_swap).
  assert (E : dummy_take_action "space" [1; 0; 2; 3] tile_at_5 = Slide 3)
    by (vm_compute; reflexivity).
  destruct (dummy_player_maximises "space" [1; 0; 2; 3] tile_at_5 3 D P E)
    as (_ & W & _).
  apply W; [reflexivity | lia | vm_compute; discriminate].
Defined.

(** ** The properties of an agent *)

Lemma substring_all (s : string) : substring 0 (String.length s) s = s.
Proof. induction s as [|c s IH]; cbn; [reflexivity | now rewrite IH]. Qed.

Lemma substring_prefix (k rest : string) :
  substring 0 (String.length k) (k ++ rest) = k.
Proof.
  induction k as [|c k IH]; cbn.
  - destruct rest; reflexivity.
  - now rewrite IH.
Qed.

Lemma substring_suffix (k rest : string) :
  substring (String.length k) (String.length rest) (k ++ rest) = rest.
Proof.
  induction k as [|c k IH]; cbn; [apply substring_all | exact IH].
Qed.

Lemma length_append (a b : string) :
  String.length (a ++ b) = (String.length a + String.length b)%nat.
Proof. induction a as [|c a IH]; cbn; [reflexivity | now rewrite IH]. Qed.

Lemma find_char_free (c : ascii) (k rest : string) :
  free_of (fun d => Ascii.eqb d c) k ->
  find_char c (k ++ String c rest) = Some (String.length k).
Proof.
  induction k as [|d k IH]; cbn.
  - intros _. now rewrite Ascii.eqb_refl.
  - intros [N F]. rewrite N, (IH F). reflexivity.
Qed.

Lemma find_char_none (c : ascii) (s : string) :
  find_char c s = None <-> free_of (fun d => Ascii.eqb d c) s.
Proof.
  induction s as [|d s IH]; cbn; [tauto|].
  destruct (Ascii.eqb d c).
  - split; [discriminate | intros [H _]; discriminate].
  - destruct (find_char c s); cbn.
    + split; [discriminate|]. intros [_ F]. apply IH in F. discriminate.
    + split; [|reflexivity]. intros _. split; [reflexivity | now apply IH].
Qed.

(** The split of a token at its first [=]. *)
Lemma key_value_of_pair (k v : string) :
  free_of (fun d => Ascii.eqb d "=") k ->
  key_of (k ++ "=" ++ v) = k /\ value_of (k ++ "=" ++ v) = v.
Proof.
  intros F. unfold key_of, value_of, substr.
  change ("=" ++ v)%string with (String "=" v).
  rewrite (find_char_free _ k v F). split.
  - apply substring_prefix.
  - rewrite length_append. cbn [String.length].
    replace (String.length k + S (String.length v) - (String.length k + 1))%nat
      with (String.length v) by lia.
    replace (k ++ String "=" v)%string with ((k ++ "=") ++ v)%string.
    + replace (String.length k + 1)%nat with (String.length (k ++ "="))
        by (rewrite length_append; reflexivity).
      apply substring_suffix.
    + induction k as [|c k IH]; cbn; [reflexivity|].
      destruct F as [_ F]. now rewrite (IH F).
Qed.

(** A token without [=] is its own key and its own value. *)
Lemma key_value_of_bare (s : string) :
  free_of (fun d => Ascii.eqb d "=") s -> key_of s = s /\ value_of s = s.
Proof.
  intros F. apply find_char_none in F. unfold key_of, value_of, substr.
  rewrite F. rewrite Nat.sub_0_r. split; apply substring_all.
Qed.

(** Storing pairs in order: the last pair with a key decides. *)
Lemma fold_notify (l : list string) (m : meta) (k : string) :
  fold_left notify l m k = after_pairs m l k.
Proof.
  unfold after_pairs, last_with_key.
  induction l as [|p l IH] using rev_ind; [reflexivity|].
  rewrite fold_left_app, rev_app_distr. cbn [fold_left rev app find].
  unfold notify at 1, meta_set. rewrite (String.eqb_sym k).
  destruct (String.eqb (key_of p) k); [reflexivity | exact IH].
Qed.

Lemma append_assoc (a b c : string) : ((a ++ b) ++ c)%string = (a ++ (b ++ c))%string.
Proof. induction a as [|x a IH]; cbn; [reflexivity | now rewrite IH]. Qed.

(** Reading through a word extends the current token by it. *)
Lemma tokens_from_word (w s cur : string) :
  free_of isspace w -> tokens_from (w ++ s) cur = tokens_from s (cur ++ w).
Proof.
  revert cur. induction w as [|c w IH]; intros cur; cbn [append free_of tokens_from].
  - intros _. f_equal. induction cur as [|x cur IHc]; cbn; [reflexivity | now rewrite <- IHc].
  - intros [N F]. rewrite N, (IH _ F). rewrite append_assoc. reflexivity.
Qed.

Lemma tokens_word (w s : string) (c : ascii) :
  w <> EmptyString -> free_of isspace w -> isspace c = true ->
  tokens (w ++ String c s) = w :: tokens s.
Proof.
  intros N F C. unfold tokens. rewrite (tokens_from_word w _ _ F).
  cbn [append tokens_from]. rewrite C. destruct w; [contradiction | reflexivity].
Qed.

Lemma tokens_last_word (w : string) :
  w <> EmptyString -> free_of isspace w -> tokens w = [w].
Proof.
  intros N F. unfold tokens.
  replace w with (w ++ "")%string at 1
    by (clear; induction w as [|c w IH]; cbn; [reflexivity | now rewrite IH]).
  rewrite (tokens_from_word w _ _ F). cbn [append tokens_from].
  destruct w; [contradiction | reflexivity].
Qed.

Lemma tokens_space (s : string) (c : ascii) :
  isspace c = true -> tokens (String c s) = tokens s.
Proof. intros C. unfold tokens. cbn [tokens_from]. rewrite C. reflexivity. Qed.

Lemma free_of_app (p : ascii -> bool) (a : string) (c : ascii) :
  free_of p a -> p c = false -> free_of p (a ++ String c EmptyString).
Proof.
  induction a as [|x a IH]; cbn [append free_of].
  - intros _ H. split; [exact H | exact I].
  - intros [H F] C. split; [exact H | apply IH; assumption].
Qed.

Lemma tokens_from_sound (s : string) : forall cur,
  free_of isspace cur ->
  Forall (fun t => t <> EmptyString /\ free_of isspace t) (tokens_from s cur).
Proof.
  induction s as [|c s IH]; intros cur F; cbn [tokens_from].
  - destruct cur; [constructor|]. constructor; [|constructor].
    split; [discriminate | exact F].
  - destruct (isspace c) eqn:C.
    + destruct cur.
      * apply IH. exact I.
      * constructor; [split; [discriminate | exact F]|]. apply IH. exact I.
    + apply IH. apply free_of_app; assumption.
Qed.

(** X21.  The token loop of the constructor reads the words of the
    argument string: a word (not empty, free of whitespace) followed by a
    whitespace character is the first token and the rest is read on;
    whitespace in front is skipped; a word alone is one token and the
    empty string has none; and every token is a word. *)
Theorem tokens_are_the_words (s w : string) (c : ascii) :
  w <> EmptyString -> free_of isspace w -> isspace c = true ->
  tokens (w ++ String c s) = w :: tokens s /\
  tokens (String c s) = tokens s /\
  tokens w = [w] /\
  tokens EmptyString = [] /\
  Forall (fun t => t <> EmptyString /\ free_of isspace t) (tokens s).
Proof.
  intros N F C.
  split; [apply tokens_word; assumption|].
  split; [apply tokens_space; assumption|].
  split; [apply tokens_last_word; assumption|].
  split; [reflexivity|].
  apply tokens_from_sound. exact I.
Qed.

Lemma tokens_are_the_words_witness :
  tokens ("alpha=0.1" ++ String " " "init") = ["alpha=0.1"; "init"]%string.
Proof.
  destruct (tokens_are_the_words "init" "alpha=0.1" " ") as (W & _).
  - discriminate.
  - cbn. repeat split.
  - reflexivity.
  - rewrite W. reflexivity.
Defined.

(** X22.  [notify] followed by [property]: after a message
    [key=value], [key] being free of [=] (the value may hold more of
    them), the property [key] is [value]; after a message without any
    [=], the message is stored under itself; and every other key keeps
    what it had. *)
Theorem notify_then_property (m : meta) (key value : string) :
  free_of (fun d => Ascii.eqb d "=") key ->
  property (notify m (key ++ "=" ++ value)) key = Some value /\
  (forall k, k <> key ->
     property (notify m (key ++ "=" ++ value)) k = property m k) /\
  property (notify m key) key = Some key /\
  (forall k, k <> key -> property (notify m key) k = property m k).
Proof.
  intros F. unfold property, notify, meta_set.
  destruct (key_value_of_pair key value F) as [-> ->].
  destruct (key_value_of_bare key F) as [-> ->].
  rewrite String.eqb_refl.
  split; [reflexivity|]. split.
  - intros k N. apply String.eqb_neq in N. rewrite N. reflexivity.
  - split; [reflexivity|].
    intros k N. apply String.eqb_neq in N. rewrite N. reflexivity.
Qed.

Lemma notify_then_property_witness :
  property (notify no_meta "alpha=0.1") "alpha" = Some "0.1"%string.
Proof.
  apply (notify_then_property no_meta "alpha" "0.1").
  cbn. repeat split.
Defined.

Lemma find_over_app {A : Type} (f : A -> bool) (l1 l2 : list A) :
  find f (l1 ++ l2)
  = match find f l1 with Some x => Some x | None => find f l2 end.
Proof.
  induction l1 as [|x l1 IH]; cbn [app find]; [reflexivity|].
  destruct (f x); [reflexivity | exact IH].
Qed.

Ltac stored_first :=
  unfold after_pairs, last_with_key; cbn [rev]; rewrite <- !app_assoc;
  cbn [app]; rewrite find_over_app;
  match goal with
  | |- context [find ?f (rev (tokens ?a))] => destruct (find f (rev (tokens a)))
  end; [reflexivity|];
  cbn [find];
  repeat match goal with
  | |- context [key_of ?s] =>
      let v := eval vm_compute in (key_of s) in change (key_of s) with v
  | |- context [value_of ?s] =>
      let v := eval vm_compute in (value_of s) in change (value_of s) with v
  end;
  unfold named, meta_set, no_meta;
  match goal with
  | |- context [String.eqb ?k "role"] =>
      rewrite !(String.eqb_sym k);
      destruct (String.eqb "role" k); [reflexivity|];
      destruct (String.eqb "name" k); reflexivity
  end.

(** X23.  What the constructors leave in [meta]: for every key, the
    value of the last token of [args] with that key (a token without [=]
    counting as key and value at once), and otherwise the default of the
    class for [name] and [role]: [unknown] and [unknown] for [agent],
    [dummy] and [player] for [player] and [dummy_player], [random] and
    [environment] for [rndenv].  So [name()] and [role()] never throw. *)
Theorem constructor_properties (args k : string) :
  property (agent_meta args) k
  = after_pairs (named "unknown" "unknown") (tokens args) k /\
  property (player_meta args) k
  = after_pairs (named "dummy" "player") (tokens args) k /\
  property (rndenv_meta args) k
  = after_pairs (named "random" "environment") (tokens args) k /\
  property (dummy_player_meta args) k
  = after_pairs (named "dummy" "player") (tokens args) k /\
  name (agent_meta args) <> None /\ role (agent_meta args) <> None.
Proof.
  assert (A : forall args k, property (agent_meta args) k
              = after_pairs (named "unknown" "unknown") (tokens args) k).
  { intros a x. unfold property.
    change (agent_meta a)
      with (fold_left notify (tokens ("name=unknown role=unknown " ++ a)) no_meta).
    change (tokens ("name=unknown role=unknown " ++ a))
      with ("name=unknown"%string :: "role=unknown"%string :: tokens a).
    cbn [fold_left]. rewrite fold_notify. unfold after_pairs.
    destruct (last_with_key x (tokens a)); [reflexivity|].
    unfold notify, named, meta_set.
    change (key_of "role=unknown") with "role"%string.
    change (key_of "name=unknown") with "name"%string.
    reflexivity. }
  split; [apply A|].
  split; [|split; [|split]].
  - unfold player_meta. rewrite A.
    change (tokens ("name=dummy role=player " ++ args))
      with ("name=dummy"%string :: "role=player"%string :: tokens args).
    stored_first.
  - unfold rndenv_meta. rewrite A.
    change (tokens ("name=random role=environment " ++ args))
      with ("name=random"%string :: "role=environment"%string :: tokens args).
    stored_first.
  - unfold dummy_player_meta. rewrite A.
    change (tokens ("name=dummy role=player " ++ args))
      with ("name=dummy"%string :: "role=player"%string :: tokens args).
    stored_first.
  - unfold name, role. rewrite !A. unfold after_pairs.
    split; destruct (last_with_key _ (tokens args)); discriminate.
Qed.
